(** * hardboiled: a shallow embedding of the static-site builder

    The development follows the Python package [hardboiled]:

    - [builder.py]  (class [SiteBuilder]) : directory set-up, copying of
      static assets, rendering of templates;
    - [config.py]   (class [Config])      : environment look-ups and the
      reflection [to_dict];
    - [utils.py]                          : [get_file_hash] and its short form;

    and, of the project skeleton, the configuration class of
    [skeleton/config.py].

    The Python code is effectful: it reads and writes a file system and
    raises exceptions.  A method is modelled as a function from the file
    system to the file system reached and either the exception raised or
    the value returned (a state-and-error monad [M]).

    The operating system, [pathlib], [shutil], [fnmatch], the template
    engine and [hashlib] are not code of the package.  The file system is
    modelled as a tree of named entries; the library calls the package makes
    are modelled after their documented behaviour on that tree.  Limits of
    the model: paths are compared lexically after [pathlib]'s normalisation,
    so that symbolic links and the component [..], which the operating
    system resolves, are outside the model (statements that depend on it
    say [dotdot_free]); permissions and file metadata are absent; a file
    holds bytes, a Python [str] is a sequence of code points, and the
    encoding of the locale, which [open] applies to text, is a parameter;
    [shutil.copytree] copies a snapshot of its source (so a destination
    nested inside the source is outside the model). *)

From stdpp Require Import gmap strings list fin_maps.
From Stdlib Require Import ZArith Ascii.

#[local] Set Warnings "-register-all,-abstract-large-number".

(* ===================================================================== *)
(** * Part I: definitions                                                 *)
(* ===================================================================== *)

(** ** Exceptions *)

Inductive error : Type :=
  | FileNotFoundError
  | FileExistsError
  | NotADirectoryError
  | IsADirectoryError
  | PermissionError
  | SameFileError
  | UnicodeEncodeError
  | ValueError (msg : string)
  | KeyError (msg : string)
  | TemplateNotFound (name : string)
  | TemplateError (msg : string).

(** The outcome of a call: the exception raised, or the value returned. *)
Abbreviation result A := (sum error A).

Definition is_ok {A} (r : result A) : bool :=
  match r with inr _ => true | inl _ => false end.

(** ** The file system *)

(** A path is the list of its components below the root, as
    [PurePosixPath.parts] without the leading ["/"]. *)
Definition path := list string.

Inductive node : Type :=
  | File (data : string)
  | Dir (entries : gmap string node).

(** What [os.stat] tells of an entry: its kind, and for a file its bytes. *)
Inductive kind : Type :=
  | KFile (data : string)
  | KDir.

Definition kind_of (n : node) : kind :=
  match n with File d => KFile d | Dir _ => KDir end.

Fixpoint lookup_path (p : path) (n : node) : option node :=
  match p with
  | [] => Some n
  | s :: q =>
      match n with
      | File _ => None
      | Dir es =>
          match es !! s with
          | Some c => lookup_path q c
          | None => None
          end
      end
  end.

Definition stat (p : path) (fs : node) : option kind :=
  kind_of <$> lookup_path p fs.

(** [Path.exists()] and [Path.is_dir()]. *)
Definition path_exists (p : path) (fs : node) : bool :=
  match lookup_path p fs with Some _ => true | None => false end.

Definition is_dir (p : path) (fs : node) : bool :=
  match lookup_path p fs with Some (Dir _) => true | _ => false end.

Definition is_file (p : path) (fs : node) : bool :=
  match lookup_path p fs with Some (File _) => true | _ => false end.

(** [graft p v fs] puts the subtree [v] at [p] ([None] removes the entry).
    The parent of [p] has to be a directory; [None] is returned otherwise,
    and when the root itself would be removed. *)
Fixpoint graft (p : path) (v : option node) (n : node) : option node :=
  match p with
  | [] => v
  | s :: q =>
      match n with
      | File _ => None
      | Dir es =>
          match q with
          | [] =>
              Some (Dir (match v with
                         | Some c => <[s:=c]> es
                         | None => delete s es
                         end))
          | _ :: _ =>
              match es !! s with
              | Some c =>
                  match graft q v c with
                  | Some c' => Some (Dir (<[s:=c']> es))
                  | None => None
                  end
              | None => None
              end
          end
      end
  end.

(** [Path.parent] and [Path.name]; the root is its own parent and has the
    empty name. *)
Definition parent (p : path) : path := removelast p.

Definition name (p : path) : string := List.last p EmptyString.

(** The error the operating system gives for a path that can not be
    reached: [ENOTDIR] when a file is in the way, [ENOENT] otherwise. *)
Fixpoint ancestor_error (p : path) (n : node) : error :=
  match n with
  | File _ => NotADirectoryError
  | Dir es =>
      match p with
      | [] => FileNotFoundError
      | s :: q =>
          match es !! s with
          | Some c => ancestor_error q c
          | None => FileNotFoundError
          end
      end
  end.

(** [Path.mkdir(parents=True, exist_ok=True)]: every missing component is
    created; a component that is a file is an error ([FileExistsError] for
    the path itself, [NotADirectoryError] for an ancestor), raised before
    anything is created, since every ancestor of an existing file exists. *)
Fixpoint mkdir_p (p : path) (n : node) : result node :=
  match n with
  | File _ =>
      match p with
      | [] => inl FileExistsError
      | _ :: _ => inl NotADirectoryError
      end
  | Dir es =>
      match p with
      | [] => inr n
      | s :: q =>
          match mkdir_p q (default (Dir ∅) (es !! s)) with
          | inr c => inr (Dir (<[s:=c]> es))
          | inl e => inl e
          end
      end
  end.

(** A file opened for writing, written and closed: the file is created
    or truncated and holds the bytes written. *)
Definition write_bytes (p : path) (data : string) (fs : node) : result node :=
  match lookup_path p fs with
  | Some (Dir _) => inl IsADirectoryError
  | _ =>
      match graft p (Some (File data)) fs with
      | Some fs' => inr fs'
      | None => inl (ancestor_error (parent p) fs)
      end
  end.

(** [shutil.rmtree(p)] with the default error handling. *)
Definition rmtree (p : path) (fs : node) : result node :=
  match lookup_path p fs with
  | None => inl (ancestor_error p fs)
  | Some (File _) => inl NotADirectoryError
  | Some (Dir _) =>
      match graft p None fs with
      | Some fs' => inr fs'
      | None => inl PermissionError
      end
  end.

(** [shutil.copytree(src, dst)]: [os.scandir(src)] first, then
    [os.makedirs(dst)] (which refuses an existing [dst] and creates the
    missing parents), then the copy of the entries. *)
Definition copytree (src dst : path) (fs : node) : result node :=
  match lookup_path src fs with
  | None => inl (ancestor_error src fs)
  | Some (File _) => inl NotADirectoryError
  | Some (Dir es) =>
      if path_exists dst fs then inl FileExistsError
      else
        match mkdir_p (parent dst) fs with
        | inl e => inl e
        | inr fs1 =>
            match graft dst (Some (Dir es)) fs1 with
            | Some fs2 => inr fs2
            | None => inl PermissionError
            end
        end
  end.

(** [shutil.copy2(src, dst)]: a [dst] that is a directory stands for the
    entry of [src]'s name inside it; copying a file onto itself is
    refused. *)
Definition copy2 (src dst : path) (fs : node) : result node :=
  match lookup_path src fs with
  | None => inl (ancestor_error src fs)
  | Some (Dir _) => inl IsADirectoryError
  | Some (File data) =>
      let dst' := if is_dir dst fs then dst ++ [name src] else dst in
      if decide (dst' = src) then inl SameFileError
      else write_bytes dst' data fs
  end.

(** [Path.iterdir()]: the entries of a directory, in the order the
    directory holds them. *)
Definition iterdir (p : path) (fs : node) : result (list path) :=
  match lookup_path p fs with
  | None => inl (ancestor_error p fs)
  | Some (File _) => inl NotADirectoryError
  | Some (Dir es) => inr ((fun kv => p ++ [kv.1]) <$> map_to_list es)
  end.

(** [open(p, "rb").read()] : the bytes of a file.  A path that does not
    exist gives [NotADirectoryError] when a file is in its way and
    [FileNotFoundError] otherwise. *)
Definition read_bytes (p : path) (fs : node) : result string :=
  match lookup_path p fs with
  | None => inl (ancestor_error p fs)
  | Some (Dir _) => inl IsADirectoryError
  | Some (File data) => inr data
  end.

(** ** Calls that change the file system or raise *)

Definition M (A : Type) : Type := node -> node * result A.

Definition ret {A} (a : A) : M A := fun fs => (fs, inr a).

Definition raise {A} (e : error) : M A := fun fs => (fs, inl e).

Definition bind {A B} (m : M A) (k : A -> M B) : M B :=
  fun fs =>
    match m fs with
    | (fs', inr a) => k a fs'
    | (fs', inl e) => (fs', inl e)
    end.

(** A system call: the new file system, or an error and no change. *)
Definition io (op : node -> result node) : M unit :=
  fun fs =>
    match op fs with
    | inr fs' => (fs', inr tt)
    | inl e => (fs, inl e)
    end.

(** A call that only reads. *)
Definition ask {A} (f : node -> A) : M A := fun fs => (fs, inr (f fs)).

Definition try_ask {A} (f : node -> result A) : M A := fun fs => (fs, f fs).

Definition lift {A} (r : result A) : M A := fun fs => (fs, r).

Declare Scope py_scope.
Delimit Scope py_scope with py.
Notation "x <- m ;; k" := (bind m (fun x => k))
  (at level 100, m at next level, right associativity) : py_scope.
Notation "m ;; k" := (bind m (fun _ => k))
  (at level 100, right associativity) : py_scope.

(** [for x in xs: body x], left to right, stopping at the first exception. *)
Fixpoint for_each {A} (body : A -> M unit) (xs : list A) : M unit :=
  match xs with
  | [] => ret tt
  | x :: rest => bind (body x) (fun _ => for_each body rest)
  end.

(** ** Text

    A Python [str] is a sequence of code points; a file holds bytes.
    [open(mode="w")], without an encoding, writes text in the encoding of
    the locale, which raises [UnicodeEncodeError] for a text it can not
    encode. *)

Definition text : Type := list N.

Class Locale : Type := {
  encode : text -> result string;
}.

(** The text of a string of ASCII characters. *)
Definition text_of_string (s : string) : text :=
  (fun c => N.of_nat (nat_of_ascii c)) <$> String.list_ascii_of_string s.

(** [Path.write_text(data)]: the file is opened for writing, which
    creates or truncates it, and then the text is encoded and written; a
    text that can not be encoded leaves the file empty. *)
Definition write_text `{L : Locale} (p : path) (data : text) : M unit :=
  (io (write_bytes p EmptyString) ;;
   bytes <- lift (encode data) ;;
   io (write_bytes p bytes))%py.

(** ** Strings *)

Fixpoint str_take (n : nat) (s : string) : string :=
  match n, s with
  | S n', String c s' => String c (str_take n' s')
  | _, _ => EmptyString
  end.

Fixpoint str_drop (n : nat) (s : string) : string :=
  match n, s with
  | S n', String _ s' => str_drop n' s'
  | _, _ => s
  end.

(** [s.startswith(pre)] *)
Fixpoint startswith (pre s : string) : bool :=
  match pre, s with
  | EmptyString, _ => true
  | String a pre', String b s' => Ascii.eqb a b && startswith pre' s'
  | String _ _, EmptyString => false
  end.

(** [s.split(c)] for a separator of one character. *)
Fixpoint split_on (c : ascii) (s : string) : list string :=
  match s with
  | EmptyString => [EmptyString]
  | String a s' =>
      if Ascii.eqb a c then EmptyString :: split_on c s'
      else
        match split_on c s' with
        | w :: ws => String a w :: ws
        | [] => [String a EmptyString]
        end
  end.

(** Python's [x or y] on an optional string: [None] and the empty string
    are falsy. *)
Definition str_or (x : option string) (y : string) : string :=
  match x with
  | Some (String c s) => String c s
  | _ => y
  end.

(** [s[:n]] for a Python integer [n]: the first [n] characters, all of [s]
    when there are fewer; a negative [n] counts from the end. *)
Definition slice_to (s : string) (n : Z) : string :=
  if (0 <=? n)%Z then str_take (Z.to_nat n) s
  else str_take (String.length s - Z.to_nat (- n)) s.

(** ** pathlib *)

(** The components of a POSIX path string: empty components and ["."]
    are dropped. *)
Definition segments (s : string) : list string :=
  List.filter (fun x => negb (String.eqb x EmptyString) && negb (String.eqb x "."))
              (split_on "/" s).

Definition is_absolute (s : string) : bool := startswith "/" s.

(** [base / s]: an absolute [s] replaces [base]. *)
Definition joinpath (base : path) (s : string) : path :=
  if is_absolute s then segments s else base ++ segments s.

(** ** fnmatch *)

Inductive glob_tok : Type :=
  | GStar
  | GAny
  | GLit (c : ascii)
  | GClass (negated : bool) (items : list (ascii * ascii)).

(** The members of a bracket expression: [x-y] is a range, any other
    character stands for itself. *)
Fixpoint class_items (s : string) : list (ascii * ascii) :=
  match s with
  | EmptyString => []
  | String x s1 =>
      match s1 with
      | String "-" (String y s3) => (x, y) :: class_items s3
      | _ => (x, x) :: class_items s1
      end
  end.

(** The text up to the first ["]"], and the text after it. *)
Fixpoint scan_close (s : string) : option (string * string) :=
  match s with
  | EmptyString => None
  | String c s' =>
      if Ascii.eqb c "]" then Some (EmptyString, s')
      else
        match scan_close s' with
        | Some (a, r) => Some (String c a, r)
        | None => None
        end
  end.

(** After a ["["]: an optional ["!"], then the members, of which a leading
    ["]"] is one, up to the closing ["]"]. *)
Definition bracket (s : string) : option (bool * string * string) :=
  let '(neg, s1) :=
    match s with
    | String "!" s' => (true, s')
    | _ => (false, s)
    end in
  match s1 with
  | String "]" s2 =>
      match scan_close s2 with
      | Some (a, r) => Some (neg, String "]" a, r)
      | None => None
      end
  | _ =>
      match scan_close s1 with
      | Some (a, r) => Some (neg, a, r)
      | None => None
      end
  end.

(** [fnmatch.translate]: one token per wildcard; a ["["] that is never
    closed is an ordinary character. *)
Fixpoint glob_tokens (fuel : nat) (pat : string) : list glob_tok :=
  match fuel with
  | O => []
  | S fuel' =>
      match pat with
      | EmptyString => []
      | String c rest =>
          if Ascii.eqb c "*" then GStar :: glob_tokens fuel' rest
          else if Ascii.eqb c "?" then GAny :: glob_tokens fuel' rest
          else if Ascii.eqb c "[" then
            match bracket rest with
            | Some (neg, set, rest') =>
                GClass neg (class_items set) :: glob_tokens fuel' rest'
            | None => GLit "[" :: glob_tokens fuel' rest
            end
          else GLit c :: glob_tokens fuel' rest
      end
  end.

Definition in_class (items : list (ascii * ascii)) (c : ascii) : bool :=
  existsb (fun it => (nat_of_ascii it.1 <=? nat_of_ascii c)%nat
                     && (nat_of_ascii c <=? nat_of_ascii it.2)%nat) items.

Fixpoint glob_match (toks : list glob_tok) (s : string) : bool :=
  match toks with
  | [] => match s with EmptyString => true | _ => false end
  | GStar :: ts =>
      (fix star (s : string) : bool :=
         glob_match ts s
         || match s with
            | EmptyString => false
            | String _ s' => star s'
            end) s
  | GAny :: ts =>
      match s with
      | String _ s' => glob_match ts s'
      | EmptyString => false
      end
  | GLit c :: ts =>
      match s with
      | String c' s' => Ascii.eqb c c' && glob_match ts s'
      | EmptyString => false
      end
  | GClass neg items :: ts =>
      match s with
      | String c' s' => xorb neg (in_class items c') && glob_match ts s'
      | EmptyString => false
      end
  end.

(** [fnmatch.fnmatchcase(name, pat)] *)
Definition fnmatchcase (nm pat : string) : bool :=
  glob_match (glob_tokens (String.length pat) pat) nm.

(** Components of the path against components of the pattern, pairwise. *)
Fixpoint match_parts (parts pats : list string) : bool :=
  match parts, pats with
  | part :: parts', pat :: pats' =>
      fnmatchcase part pat && match_parts parts' pats'
  | _, _ => true
  end.

(** [PurePath.match(pattern)] (as of Python 3.12): an absolute pattern is
    matched against the whole path, a relative one from the right; a
    relative pattern without components is refused. *)
Definition path_match (p : path) (pattern : string) : result bool :=
  let pats := segments pattern in
  if is_absolute pattern then
    inr ((length pats =? length p)%nat && match_parts (rev p) (rev pats))
  else
    match pats with
    | [] => inl (ValueError "empty pattern")
    | _ :: _ =>
        if (length p <? length pats)%nat then inr false
        else inr (match_parts (rev p) (rev pats))
    end.

(** [any(item.match(pattern) for pattern in patterns)]: the patterns are
    tried in order, up to the first that matches. *)
Fixpoint any_match (item : path) (patterns : list string) : result bool :=
  match patterns with
  | [] => inr false
  | pat :: rest =>
      match path_match item pat with
      | inl e => inl e
      | inr true => inr true
      | inr false => any_match item rest
      end
  end.

(** ** The template engine (jinja2)

    The engine is outside the package; [SiteBuilder] uses three of its
    operations: building an environment over a template directory, loading
    a template by name (which reads the file system), and rendering a
    template against a context. *)

Class Jinja2 : Type := {
  Environment : Type;
  Template : Type;
  Value : Type;
  (** [Environment(loader=FileSystemLoader(str(template_dir)), autoescape=True)] *)
  new_environment : path -> Environment;
  (** [env.get_template(name)] *)
  get_template : Environment -> string -> node -> result Template;
  (** [template.render] applied to the context as keyword arguments *)
  render : Template -> gmap string Value -> result text;
}.

(** ** builder.py *)

Section Builder.
Context `{J : Jinja2} `{L : Locale}.

Record SiteBuilder : Type := {
  base_path : path;
  template_dir : path;
  static_dir : path;
  build_dir : path;
  env : Environment;
}.

(** [SiteBuilder.__init__]; [cwd] is what [Path.cwd()] returns. *)
Definition init (cwd : path) (template_dir static_dir build_dir : string)
    (base_path : option path) : SiteBuilder :=
  let base_path := default cwd base_path in
  {| base_path := base_path;
     template_dir := joinpath base_path template_dir;
     static_dir := joinpath base_path static_dir;
     build_dir := joinpath base_path build_dir;
     env := new_environment (joinpath base_path template_dir) |}.

#[local] Open Scope py_scope.

Definition ensure_build_dirs (self : SiteBuilder)
    (subdirs : option (list string)) : M unit :=
  io (mkdir_p (build_dir self)) ;;
  match subdirs with
  | Some ((_ :: _) as subdirs) =>
      for_each
        (fun subdir => io (mkdir_p (joinpath (build_dir self) subdir)))
        subdirs
  | _ => ret tt
  end.

(** The body of the loop of [copy_static_assets]. *)
Definition copy_item (static_dest : path) (exclude_patterns : list string)
    (item : path) : M unit :=
  let dest := static_dest ++ [name item] in
  should_exclude <- lift (any_match item exclude_patterns) ;;
  if (should_exclude : bool) then ret tt
  else
    d <- ask (is_dir item) ;;
    if (d : bool) then
      (e <- ask (path_exists dest) ;;
       if (e : bool) then io (rmtree dest) else ret tt) ;;
      io (copytree item dest)
    else io (copy2 item dest).

Definition copy_static_assets (self : SiteBuilder)
    (exclude_patterns : option (list string)) : M unit :=
  ex <- ask (path_exists (static_dir self)) ;;
  if negb ex then ret tt
  else
    let exclude_patterns := default [] exclude_patterns in
    let static_dest := build_dir self ++ ["static"] in
    io (mkdir_p static_dest) ;;
    items <- try_ask (iterdir (static_dir self)) ;;
    for_each (copy_item static_dest exclude_patterns) items.

Definition render_template (self : SiteBuilder) (template_name : string)
    (context : option (gmap string Value)) (output_name : option string)
    : M text :=
  let context := default ∅ context in
  let output_name := str_or output_name template_name in
  template <- try_ask (get_template (env self) template_name) ;;
  html <- lift (render template context) ;;
  let output_path := joinpath (build_dir self) output_name in
  io (mkdir_p (parent output_path)) ;;
  write_text output_path html ;;
  ret html.

(** An entry of [pages]: a template name, or a (template, output) pair. *)
Inductive page : Type :=
  | PageName (template : string)
  | PagePair (template output : string).

(** [isinstance(page, tuple)]: a pair is unpacked, a name stands for
    both the template and the output. *)
Definition page_names (page : page) : string * string :=
  match page with
  | PagePair template_name output_name => (template_name, output_name)
  | PageName page => (page, page)
  end.

Definition render_pages (self : SiteBuilder) (pages : list page)
    (context : option (gmap string Value)) : M unit :=
  let context := default ∅ context in
  for_each
    (fun page =>
       let '(template_name, output_name) := page_names page in
       _ <- render_template self template_name (Some context)
              (Some output_name) ;;
       ret tt)
    pages.

Definition clean (self : SiteBuilder) : M unit :=
  e <- ask (path_exists (build_dir self)) ;;
  if (e : bool) then io (rmtree (build_dir self)) else ret tt.

End Builder.

(** ** config.py *)

(** Python values a configuration attribute may hold. *)
Inductive pyval : Type :=
  | PyNone
  | PyStr (s : string)
  | PyInt (z : Z)
  | PyBool (b : bool)
  | PyCallable (qualname : string).

(** An instance: its own attributes, and the namespaces of the classes of
    its type in method-resolution order (the type itself first, [object]
    last). *)
Record pyobject : Type := {
  inst_dict : gmap string pyval;
  mro : list (gmap string pyval);
}.

(** [getattr(obj, key)] for plain attributes: the instance first, then the
    first class in resolution order that defines the name. *)
Fixpoint mro_lookup (key : string) (classes : list (gmap string pyval))
    : option pyval :=
  match classes with
  | [] => None
  | ns :: rest =>
      match ns !! key with
      | Some v => Some v
      | None => mro_lookup key rest
      end
  end.

Definition getattr (obj : pyobject) (key : string) : option pyval :=
  match inst_dict obj !! key with
  | Some v => Some v
  | None => mro_lookup key (mro obj)
  end.

(** [dir(obj)]: the names of the instance and of every class of its type,
    each once.  (Python sorts them; the order does not show in a dict.) *)
Definition dir (obj : pyobject) : list string :=
  elements (dom (inst_dict obj) ∪ ⋃ (dom <$> mro obj) : gset string).

Definition is_ascii_upper (c : ascii) : bool :=
  (65 <=? nat_of_ascii c)%nat && (nat_of_ascii c <=? 90)%nat.

Definition is_ascii_lower (c : ascii) : bool :=
  (97 <=? nat_of_ascii c)%nat && (nat_of_ascii c <=? 122)%nat.

(** [str.isupper()], as CPython computes it (on ASCII text): a lowercase
    character refuses the string at once; otherwise the answer is whether
    an uppercase character was seen. *)
Fixpoint isupper_from (cased : bool) (s : string) : bool :=
  match s with
  | EmptyString => cased
  | String c s' =>
      if is_ascii_lower c then false
      else isupper_from (cased || is_ascii_upper c) s'
  end.

Definition isupper (s : string) : bool := isupper_from false s.

Module Config.

(** [os.environ.get(key, default)] *)
Definition environ_get (environ : gmap string string) (key : string)
    (default : option string) : option string :=
  match environ !! key with
  | Some v => Some v
  | None => default
  end.

Definition get (environ : gmap string string) (key : string)
    (default : option string) : option string :=
  environ_get environ key default.

Definition require (environ : gmap string string) (key : string)
    : result string :=
  match environ_get environ key None with
  | None =>
      inl (KeyError
             ("Required environment variable '" +:+ key +:+ "' is not set"))
  | Some value => inr value
  end.

Definition to_dict (self : pyobject) : gmap string pyval :=
  list_to_map
    (omap (fun key =>
             if isupper key && negb (startswith "_" key)
             then (fun v => (key, v)) <$> getattr self key
             else None)
          (dir self)).

End Config.

(** ** skeleton/config.py

    The configuration class of the project skeleton: three class
    attributes, each read from the environment when the class is made,
    with a default. *)

Module Skeleton.

(** [os.environ.get(key, default)] as the value of a class attribute. *)
Definition environ_value (environ : gmap string string)
    (key default : string) : pyval :=
  match Config.environ_get environ key (Some default) with
  | Some v => PyStr v
  | None => PyNone
  end.

(** The namespace of [class Config(BaseConfig)]. *)
Definition Config_namespace (environ : gmap string string)
    : gmap string pyval :=
  <["SITE_NAME" := environ_value environ "SITE_NAME" "My Site"]>
  (<["SITE_URL" := environ_value environ "SITE_URL" "https://example.com"]>
   (<["SITE_DESCRIPTION" :=
      environ_value environ "SITE_DESCRIPTION"
        "A static site built with hardboiled"]>
    (<["__module__" := PyStr "config"]>
     (<["__doc__" := PyStr "Site-specific configuration."]> ∅)))).

(** [Config()]: an instance without attributes of its own; [inherited]
    holds the namespaces of the base classes, [hardboiled.Config] and
    [object]. *)
Definition config (environ : gmap string string)
    (inherited : list (gmap string pyval)) : pyobject :=
  {| inst_dict := ∅; mro := Config_namespace environ :: inherited |}.

End Skeleton.

(** ** utils.py *)

(** [hashlib]: a hash object is made for a named algorithm, fed bytes, and
    asked for its digest in hexadecimal. *)
Class HashLib : Type := {
  hash_object : Type;
  hash_new : string -> result hash_object;
  hash_update : hash_object -> string -> hash_object;
  hash_hexdigest : hash_object -> string;
}.

Section Utils.
Context `{H : HashLib}.

#[local] Open Scope py_scope.

(** The number of bytes asked of [f.read] at a time. *)
Definition chunk_size : nat := 8192.

(** The loop over [f.read(8192)] that feeds each chunk to
    [hash_func.update] and ends at the first empty chunk; [rest] is what
    the file object has still to deliver.  Every round but the last
    takes at least one byte, so one round more than there are bytes is
    enough. *)
Fixpoint read_loop (fuel : nat) (hash_func : hash_object) (rest : string)
    : hash_object :=
  match fuel with
  | O => hash_func
  | S fuel' =>
      match str_take chunk_size rest with
      | EmptyString => hash_func
      | chunk => read_loop fuel' (hash_update hash_func chunk)
                   (str_drop chunk_size rest)
      end
  end.

Definition get_file_hash (file_path : path) (algorithm : string)
    : M string :=
  hash_func <- lift (hash_new algorithm) ;;
  data <- try_ask (read_bytes file_path) ;;
  ret (hash_hexdigest (read_loop (S (String.length data)) hash_func data)).

Definition get_file_hash_short (file_path : path) (length : Z) : M string :=
  digest <- get_file_hash file_path "md5" ;;
  ret (slice_to digest length).

End Utils.

(** ** An instance of [hashlib]: MD5 (RFC 1321)

    [get_file_hash_short] always asks for ["md5"]; this instance computes
    it, so that the functions of [utils.py] can be run. *)

Module MD5.
#[local] Open Scope Z_scope.

Definition mask32 : Z := 0xffffffff.

Definition add32 (x y : Z) : Z := Z.land (x + y) mask32.

Definition not32 (x : Z) : Z := Z.lxor x mask32.

Definition rotl32 (x n : Z) : Z :=
  Z.land (Z.lor (Z.shiftl x n) (Z.shiftr x (32 - n))) mask32.

Definition K : list Z :=
  [ 0xd76aa478; 0xe8c7b756; 0x242070db; 0xc1bdceee;
    0xf57c0faf; 0x4787c62a; 0xa8304613; 0xfd469501;
    0x698098d8; 0x8b44f7af; 0xffff5bb1; 0x895cd7be;
    0x6b901122; 0xfd987193; 0xa679438e; 0x49b40821;
    0xf61e2562; 0xc040b340; 0x265e5a51; 0xe9b6c7aa;
    0xd62f105d; 0x02441453; 0xd8a1e681; 0xe7d3fbc8;
    0x21e1cde6; 0xc33707d6; 0xf4d50d87; 0x455a14ed;
    0xa9e3e905; 0xfcefa3f8; 0x676f02d9; 0x8d2a4c8a;
    0xfffa3942; 0x8771f681; 0x6d9d6122; 0xfde5380c;
    0xa4beea44; 0x4bdecfa9; 0xf6bb4b60; 0xbebfbc70;
    0x289b7ec6; 0xeaa127fa; 0xd4ef3085; 0x04881d05;
    0xd9d4d039; 0xe6db99e5; 0x1fa27cf8; 0xc4ac5665;
    0xf4292244; 0x432aff97; 0xab9423a7; 0xfc93a039;
    0x655b59c3; 0x8f0ccc92; 0xffeff47d; 0x85845dd1;
    0x6fa87e4f; 0xfe2ce6e0; 0xa3014314; 0x4e0811a1;
    0xf7537e82; 0xbd3af235; 0x2ad7d2bb; 0xeb86d391 ].

Definition shifts : list Z :=
  [ 7; 12; 17; 22; 7; 12; 17; 22; 7; 12; 17; 22; 7; 12; 17; 22;
    5;  9; 14; 20; 5;  9; 14; 20; 5;  9; 14; 20; 5;  9; 14; 20;
    4; 11; 16; 23; 4; 11; 16; 23; 4; 11; 16; 23; 4; 11; 16; 23;
    6; 10; 15; 21; 6; 10; 15; 21; 6; 10; 15; 21; 6; 10; 15; 21 ].

Definition state : Type := Z * Z * Z * Z.

Definition init_state : state :=
  (0x67452301, 0xefcdab89, 0x98badcfe, 0x10325476).

Definition bytes_of (s : string) : list Z :=
  (fun c => Z.of_nat (nat_of_ascii c)) <$> String.list_ascii_of_string s.

(** Little-endian bytes of a number, [n] of them. *)
Fixpoint le_bytes (n : nat) (x : Z) : list Z :=
  match n with
  | O => []
  | S n' => Z.land x 0xff :: le_bytes n' (Z.shiftr x 8)
  end.

Fixpoint le_word (bs : list Z) : Z :=
  match bs with
  | [] => 0
  | b :: bs' => Z.lor b (Z.shiftl (le_word bs') 8)
  end.

(** The message, a one bit, zeros up to 56 modulo 64, the bit length. *)
Definition pad (msg : list Z) : list Z :=
  let len := Z.of_nat (length msg) in
  let zeros := Z.to_nat ((55 - len) mod 64) in
  msg ++ [0x80] ++ replicate zeros 0 ++ le_bytes 8 (Z.land (8 * len) 0xffffffffffffffff).

Fixpoint words (n : nat) (block : list Z) : list Z :=
  match n with
  | O => []
  | S n' => le_word (firstn 4 block) :: words n' (skipn 4 block)
  end.

Definition step (m : list Z) (st : state) (i : nat) : state :=
  let '(a, b, c, d) := st in
  let '(f, g) :=
    if (i <? 16)%nat then
      (Z.lor (Z.land b c) (Z.land (not32 b) d), i)
    else if (i <? 32)%nat then
      (Z.lor (Z.land d b) (Z.land (not32 d) c), ((5 * i + 1) mod 16)%nat)
    else if (i <? 48)%nat then
      (Z.lxor b (Z.lxor c d), ((3 * i + 5) mod 16)%nat)
    else
      (Z.lxor c (Z.lor b (not32 d)), ((7 * i) mod 16)%nat) in
  let f' := add32 (add32 (add32 f a) (nth i K 0)) (nth g m 0) in
  (d, add32 b (rotl32 f' (nth i shifts 0)), b, c).

Definition compress (block : list Z) (st : state) : state :=
  let m := words 16 block in
  let '(a, b, c, d) := foldl (step m) st (seq 0 64) in
  let '(a0, b0, c0, d0) := st in
  (add32 a0 a, add32 b0 b, add32 c0 c, add32 d0 d).

Fixpoint process (nblocks : nat) (bs : list Z) (st : state) : state :=
  match nblocks with
  | O => st
  | S n' => process n' (skipn 64 bs) (compress (firstn 64 bs) st)
  end.

Definition hex_digit (x : Z) : ascii :=
  nth (Z.to_nat x) (String.list_ascii_of_string "0123456789abcdef") "0"%char.

Definition hex_byte (b : Z) : list ascii :=
  [hex_digit (Z.shiftr b 4); hex_digit (Z.land b 0xf)].

Definition hexdigest (msg : string) : string :=
  let bs := pad (bytes_of msg) in
  let '(a, b, c, d) := process (length bs / 64) bs init_state in
  String.string_of_list_ascii
    (concat (hex_byte <$> (le_bytes 4 a ++ le_bytes 4 b
                            ++ le_bytes 4 c ++ le_bytes 4 d))).

(** The hash object holds the bytes it was fed. *)
#[export] Instance hashlib : HashLib := {|
  hash_object := string;
  hash_new algorithm :=
    if String.eqb algorithm "md5" then inr EmptyString
    else inl (ValueError ("unsupported hash type " +:+ algorithm));
  hash_update h chunk := h +:+ chunk;
  hash_hexdigest h := hexdigest h;
|}.

End MD5.

(** ** An instance of the locale: UTF-8

    The encoding of most locales.  The code points from [D800] to [DFFF]
    (the surrogates, which a Python [str] may hold) have no encoding. *)

Module UTF8.
#[local] Open Scope N_scope.

Definition encode_point (c : N) : option (list N) :=
  if c <? 0x80 then Some [c]
  else if c <? 0x800 then Some [0xC0 + c / 0x40; 0x80 + c mod 0x40]
  else if (0xD800 <=? c) && (c <? 0xE000) then None
  else if c <? 0x10000 then
    Some [0xE0 + c / 0x1000; 0x80 + (c / 0x40) mod 0x40; 0x80 + c mod 0x40]
  else if c <? 0x110000 then
    Some [0xF0 + c / 0x40000; 0x80 + (c / 0x1000) mod 0x40;
          0x80 + (c / 0x40) mod 0x40; 0x80 + c mod 0x40]
  else None.

Fixpoint encode_text (t : text) : result string :=
  match t with
  | [] => inr EmptyString
  | c :: t' =>
      match encode_point c, encode_text t' with
      | Some bs, inr s =>
          inr (String.string_of_list_ascii (ascii_of_N <$> bs) +:+ s)
      | _, _ => inl UnicodeEncodeError
      end
  end.

#[export] Instance locale : Locale := {| encode := encode_text |}.

End UTF8.

(** ** An instance of the template engine

    A small engine in the manner of jinja2, so that the builder can be run:
    a template is the text of a file of the template directory (read byte
    for byte, which for a file in ASCII is what jinja2 reads), and
    rendering replaces each [{{ name }}] by the HTML-escaped value of [name]
    in the context (nothing when [name] is not bound). *)

Module MiniJinja.

Definition escape_point (c : N) : text :=
  if (c =? 38)%N then text_of_string "&amp;"
  else if (c =? 60)%N then text_of_string "&lt;"
  else if (c =? 62)%N then text_of_string "&gt;"
  else if (c =? 39)%N then text_of_string "&#39;"
  else if (c =? 34)%N then text_of_string "&#34;"
  else [c].

Definition escape (t : text) : text := t ≫= escape_point.

Fixpoint strip (s : string) : string :=
  match s with
  | EmptyString => EmptyString
  | String c s' =>
      if Ascii.eqb c " " then strip s' else String c (strip s')
  end.

Definition point (c : ascii) : N := N.of_nat (nat_of_ascii c).

(** [expr] holds the text read since an opening [{{], if one is open. *)
Fixpoint expand (context : gmap string text) (expr : option string)
    (s : string) : result text :=
  match s with
  | EmptyString =>
      match expr with
      | None => inr []
      | Some _ => inl (TemplateError "unexpected end of template")
      end
  | String c s' =>
      match expr with
      | None =>
          match s' with
          | String c' s'' =>
              if Ascii.eqb c "{" && Ascii.eqb c' "{"
              then expand context (Some EmptyString) s''
              else
                match expand context None s' with
                | inr r => inr (point c :: r)
                | inl e => inl e
                end
          | EmptyString => inr [point c]
          end
      | Some acc =>
          match s' with
          | String c' s'' =>
              if Ascii.eqb c "}" && Ascii.eqb c' "}"
              then
                match expand context None s'' with
                | inr r =>
                    inr (escape (default [] (context !! strip acc)) ++ r)
                | inl e => inl e
                end
              else expand context (Some (acc +:+ String c EmptyString)) s'
          | EmptyString => inl (TemplateError "unexpected end of template")
          end
      end
  end.

#[export] Instance engine : Jinja2 := {|
  Environment := path;
  Template := string;
  Value := text;
  new_environment searchpath := searchpath;
  get_template searchpath name fs :=
    match lookup_path (joinpath searchpath name) fs with
    | Some (File bytes) => inr bytes
    | _ => inl (TemplateNotFound name)
    end;
  render template context := expand context None template;
|}.

End MiniJinja.

(** ** Notions the statements use *)

(** [blocked p fs]: a component of [p] is a file, so that the directory
    [p] can not be made. *)
Fixpoint blocked (p : path) (fs : node) : bool :=
  match fs with
  | File _ => true
  | Dir es =>
      match p with
      | [] => false
      | s :: q =>
          match es !! s with
          | Some c => blocked q c
          | None => false
          end
      end
  end.

(** No component of [p] is [..]: the path is what the operating system
    resolves it to. *)
Definition dotdot_free (p : path) : bool :=
  forallb (fun s => negb (String.eqb s "..")) p.

(** Neither path is a prefix of the other. *)
Definition unrelated (p q : path) : Prop :=
  ¬ p `prefix_of` q ∧ ¬ q `prefix_of` p.

#[global] Instance unrelated_dec p q : Decision (unrelated p q).
Proof. unfold unrelated. apply _. Defined.

(** [fs'] agrees with [fs] on every path that is neither below [d] nor
    above it. *)
Definition same_outside (d : path) (fs fs' : node) : Prop :=
  ∀ q, ¬ d `prefix_of` q → ¬ q `prefix_of` d →
       lookup_path q fs' = lookup_path q fs.

(** Where [shutil.copy2] writes. *)
Definition copy2_target (src dst : path) (fs : node) : path :=
  if is_dir dst fs then dst ++ [name src] else dst.

(** What a round of the loop of [copy_static_assets] that does not raise
    has done for the entry [n] of the source [sd]. *)
Definition copied (sd sdst : path) (pats : list string) (n : string)
    (fs fs' : node) : Prop :=
  ∃ b, any_match (sd ++ [n]) pats = inr b ∧
    if (b : bool) then
      lookup_path (sdst ++ [n]) fs' = lookup_path (sdst ++ [n]) fs
    else
      match lookup_path (sd ++ [n]) fs with
      | Some (Dir es) => lookup_path (sdst ++ [n]) fs' = Some (Dir es)
      | Some (File d) =>
          lookup_path (copy2_target (sd ++ [n]) (sdst ++ [n]) fs) fs'
          = Some (File d)
      | None => False
      end.

(** What a round of the loop needs of the destination of the entry [n]
    that holds [c], in order not to raise: for a directory, that no file
    is at the destination; for a file, that there is no directory where
    it is to be written inside a directory at the destination. *)
Definition can_copy (sdst : path) (n : string) (c : node) (fs : node) : Prop :=
  match c with
  | Dir _ => is_file (sdst ++ [n]) fs = false
  | File _ => is_dir (sdst ++ [n; n]) fs = false
  end.

(** The tokens of a pattern of plain characters. *)
Fixpoint lits (s : string) : list glob_tok :=
  match s with
  | EmptyString => []
  | String c s' => GLit c :: lits s'
  end.

Definition chars (s : string) : list ascii := String.list_ascii_of_string s.

(** Every character of [s] is an ASCII character. *)
Definition ascii_only (s : string) : bool :=
  forallb (fun c => (nat_of_ascii c <? 128)%nat) (chars s).

(** The words of the specification for [to_dict]: every letter of the name
    is a capital, and there is one. *)
Definition entirely_uppercase (s : string) : Prop :=
  (∃ c, c ∈ chars s ∧ is_ascii_upper c = true)
  ∧ ∀ c, c ∈ chars s → is_ascii_lower c = false.

(** What [hashlib] promises of a hash object: feeding it bytes in pieces
    is feeding it the bytes. *)
Class HashLibLaws (H : HashLib) : Prop := {
  hash_update_empty h : hash_update h EmptyString = h;
  hash_update_app h a b :
    hash_update (hash_update h a) b = hash_update h (a +:+ b);
}.

Section Statements.
Context `{J : Jinja2} `{L : Locale}.

(** The directories [ensure_build_dirs] makes, in the order it makes
    them. *)
Definition build_dirs (self : SiteBuilder) (subdirs : option (list string))
    : list path :=
  build_dir self :: (joinpath (build_dir self) <$> default [] subdirs).

(** The directory [copy_static_assets] copies into. *)
Definition static_dest (self : SiteBuilder) : path :=
  build_dir self ++ ["static"].

(** Where [render_template] writes. *)
Definition output_path (self : SiteBuilder) (template_name : string)
    (output_name : option string) : path :=
  joinpath (build_dir self) (str_or output_name template_name).

(** The call [render_pages] makes for an entry of [pages]. *)
Definition render_page (self : SiteBuilder)
    (context : option (gmap string Value)) (pg : page) : M text :=
  render_template self (page_names pg).1 (Some (default ∅ context))
    (Some (page_names pg).2).

End Statements.

(** ** The project of the test suite

    The fixture [temp_project] of [tests/test_builder.py]: two templates,
    a style sheet and a directory of style sheets. *)

Module Fixture.

Definition base : path := ["tmp"; "project"].

Definition templates : node :=
  Dir (<["index.html" := File "<h1>{{ title }}</h1>"]>
       (<["about.html" := File "<h1>About {{ name }}</h1>"]> ∅)).

Definition static : node :=
  Dir (<["style.css" := File "body { color: black; }"]>
       (<["css" := Dir (<["main.css" := File ".main { display: block; }"]> ∅)]>
        ∅)).

Definition sources : node :=
  Dir (<["templates" := templates]> (<["static" := static]> ∅)).

Definition temp_project : node :=
  Dir (<["tmp" := Dir (<["project" := Dir (<["src" := sources]> ∅)]> ∅)]> ∅).

(** The same project after an earlier build: the build directory holds a
    style sheet that the sources no longer have. *)
Definition stale_build : node :=
  Dir (<["static" :=
         Dir (<["css" := Dir (<["old.css" := File ".old { }"]> ∅)]> ∅)]> ∅).

Definition stale_project : node :=
  Dir (<["tmp" :=
         Dir (<["project" :=
                Dir (<["src" := sources]> (<["build" := stale_build]> ∅))]>
              ∅)]> ∅).

(** A project whose static source is a file. *)
Definition file_for_static : node :=
  Dir (<["tmp" :=
         Dir (<["project" :=
                Dir (<["src" := Dir (<["static" := File "not a directory"]> ∅)]>
                     ∅)]> ∅)]> ∅).

Definition builder : SiteBuilder (J := MiniJinja.engine) :=
  init [] "src/templates" "src/static" "build" (Some base).

Definition context : gmap string text :=
  <["title" := text_of_string "Hello World"]>
  (<["name" := text_of_string "Hardboiled"]> ∅).

(** A context with a text that UTF-8 can not encode: a surrogate
    alone. *)
Definition surrogate_context : gmap string text :=
  <["title" := text_of_string "Hello World"]> (<["name" := [0xD800%N]]> ∅).

(** A static source with a file that is no style sheet, and a build
    directory in which a directory stands where that file goes. *)
Definition assets : node :=
  Dir (<["style.css" := File "body { color: black; }"]>
       (<["robots.txt" := File "User-agent: *"]>
        (<["css" := Dir (<["main.css" := File ".main { display: block; }"]> ∅)]>
         ∅))).

Definition assets_project : node :=
  Dir (<["tmp" :=
         Dir (<["project" :=
                Dir (<["src" := Dir (<["static" := assets]> ∅)]> ∅)]>
              ∅)]> ∅).

Definition shadowed_build : node :=
  Dir (<["static" := Dir (<["robots.txt" := Dir ∅]> ∅)]> ∅).

Definition shadowed_project : node :=
  Dir (<["tmp" :=
         Dir (<["project" :=
                Dir (<["src" := Dir (<["static" := assets]> ∅)]>
                     (<["build" := shadowed_build]> ∅))]>
              ∅)]> ∅).

(** [class TestConfig(Config)] of [test_to_dict]. *)
Definition object_namespace : gmap string pyval :=
  <["__class__" := PyCallable "type"]>
  (<["__init__" := PyCallable "object.__init__"]>
   (<["__doc__" := PyStr "The base class of the class hierarchy."]> ∅)).

Definition Config_namespace : gmap string pyval :=
  <["load_env" := PyCallable "Config.load_env"]>
  (<["get" := PyCallable "Config.get"]>
   (<["require" := PyCallable "Config.require"]>
    (<["to_dict" := PyCallable "Config.to_dict"]>
     (<["__doc__" :=
        PyStr "Base configuration class with environment loading support."]>
      ∅)))).

Definition TestConfig_namespace : gmap string pyval :=
  <["SITE_NAME" := PyStr "Test"]>
  (<["SITE_URL" := PyStr "https://test.com"]>
   (<["_private" := PyStr "hidden"]>
    (<["lowercase" := PyStr "hidden"]> ∅))).

Definition config : pyobject :=
  {| inst_dict := ∅;
     mro := [TestConfig_namespace; Config_namespace; object_namespace] |}.

End Fixture.

(* ===================================================================== *)
(** * Part II: lemmas and theorems                                        *)
(* ===================================================================== *)

#[local] Arguments graft : simpl never.
#[local] Arguments mkdir_p : simpl never.
#[local] Open Scope py_scope.

Lemma lookup_path_app p q n :
  lookup_path (p ++ q) n = lookup_path p n ≫= lookup_path q.
Proof.
  revert n. induction p as [|s p IH]; intros n; simpl; [done|].
  destruct n as [d|es]; [done|]. destruct (es !! s); [apply IH|done].
Qed.

Lemma lookup_path_nil n : lookup_path [] n = Some n.
Proof. done. Qed.

Lemma lookup_path_file_cons d s q : lookup_path (s :: q) (File d) = None.
Proof. done. Qed.

Lemma lookup_path_dir_cons es s q :
  lookup_path (s :: q) (Dir es) = es !! s ≫= lookup_path q.
Proof. simpl. by destruct (es !! s). Qed.

Lemma graft_cons_dir s q v es :
  graft (s :: q) v (Dir es) =
    match q with
    | [] => Some (Dir (match v with Some c => <[s:=c]> es | None => delete s es end))
    | _ :: _ => c ← es !! s; c' ← graft q v c; Some (Dir (<[s:=c']> es))
    end.
Proof. destruct q; reflexivity. Qed.

Lemma graft_lookup p v fs fs' :
  graft p v fs = Some fs' → lookup_path p fs' = v.
Proof.
  revert fs fs'. induction p as [|s q IH]; intros fs fs' Hg.
  - simpl in *. by subst.
  - destruct fs as [d|es]; [done|]. rewrite graft_cons_dir in Hg.
    destruct q as [|s' q'].
    + simplify_eq. rewrite lookup_path_dir_cons.
      destruct v; [rewrite lookup_insert_eq|rewrite lookup_delete_eq]; simpl; done.
    + destruct (es !! s) as [c|] eqn:Hs; simpl in Hg; [|done].
      destruct (graft (s' :: q') v c) as [c'|] eqn:Hc; simpl in Hg; [|done].
      simplify_eq. rewrite lookup_path_dir_cons, lookup_insert_eq. simpl.
      by eapply IH.
Qed.

Lemma graft_lookup_under p r v fs fs' :
  graft p v fs = Some fs' → lookup_path (p ++ r) fs' = v ≫= lookup_path r.
Proof. intros Hg. by rewrite lookup_path_app, (graft_lookup _ _ _ _ Hg). Qed.

(** Paths that are not below [p] and not above it are untouched *)
Lemma graft_lookup_other p q v fs fs' :
  graft p v fs = Some fs' → ¬ p `prefix_of` q → ¬ q `prefix_of` p →
  lookup_path q fs' = lookup_path q fs.
Proof.
  revert q fs fs'. induction p as [|s p IH]; intros q fs fs' Hg Hpq Hqp.
  - destruct Hpq. apply prefix_nil.
  - destruct q as [|t q]; [destruct Hqp; apply prefix_nil|].
    destruct fs as [d|es]; [done|]. rewrite graft_cons_dir in Hg.
    destruct (decide (s = t)) as [->|Hne].
    + assert (¬ p `prefix_of` q) by (intros ?; apply Hpq; by apply prefix_cons).
      assert (¬ q `prefix_of` p) by (intros ?; apply Hqp; by apply prefix_cons).
      destruct p as [|s' p'].
      { destruct H. apply prefix_nil. }
      destruct (es !! t) as [c|] eqn:Hs; simpl in Hg; [|done].
      destruct (graft (s' :: p') v c) as [c'|] eqn:Hc; simpl in Hg; [|done].
      simplify_eq. rewrite !lookup_path_dir_cons, lookup_insert_eq, Hs. simpl.
      by eapply IH.
    + destruct p as [|s' p'].
      * simplify_eq. rewrite !lookup_path_dir_cons.
        destruct v; [rewrite lookup_insert_ne|rewrite lookup_delete_ne]; done.
      * destruct (es !! s) as [c|] eqn:Hs; simpl in Hg; [|done].
        destruct (graft (s' :: p') v c) as [c'|] eqn:Hc; simpl in Hg; [|done].
        simplify_eq. rewrite !lookup_path_dir_cons, lookup_insert_ne; done.
Qed.

(** A strict ancestor of a grafted path is a directory before and after. *)
Lemma graft_above p q v fs fs' :
  graft p v fs = Some fs' → q `prefix_of` p → q ≠ p →
  is_dir q fs = true ∧ is_dir q fs' = true.
Proof.
  unfold is_dir.
  revert q fs fs'. induction p as [|s p IH]; intros q fs fs' Hg Hqp Hne.
  - apply prefix_nil_inv in Hqp. done.
  - destruct fs as [d|es]; [done|]. rewrite graft_cons_dir in Hg.
    destruct q as [|t q].
    + simpl. destruct p; [by simplify_eq|].
      destruct (es !! s); simpl in Hg; [|done].
      destruct (graft _ _ _); simpl in Hg; [|done]. by simplify_eq.
    + assert (t = s) as -> by (by apply prefix_cons_inv_1 in Hqp).
      apply prefix_cons_inv_2 in Hqp.
      assert (q ≠ p) by congruence.
      destruct p as [|s' p'].
      { apply prefix_nil_inv in Hqp. done. }
      destruct (es !! s) as [c|] eqn:Hs; simpl in Hg; [|done].
      destruct (graft (s' :: p') v c) as [c'|] eqn:Hc; simpl in Hg; [|done].
      simplify_eq. rewrite !lookup_path_dir_cons, lookup_insert_eq, Hs. simpl.
      by eapply IH.
Qed.

(** *** Kinds *)

Lemma is_dir_stat p fs : is_dir p fs = true ↔ stat p fs = Some KDir.
Proof.
  unfold is_dir, stat. destruct (lookup_path p fs) as [[d|es]|]; simpl; split; congruence.
Qed.

Lemma is_dir_lookup p fs :
  is_dir p fs = true ↔ ∃ es, lookup_path p fs = Some (Dir es).
Proof.
  unfold is_dir. destruct (lookup_path p fs) as [[d|es]|]; split;
    try congruence; try (intros [? ?]; congruence); eauto.
Qed.

Lemma is_file_lookup p fs :
  is_file p fs = true ↔ ∃ d, lookup_path p fs = Some (File d).
Proof.
  unfold is_file. destruct (lookup_path p fs) as [[d|es]|]; split;
    try congruence; try (intros [? ?]; congruence); eauto.
Qed.

Lemma path_exists_lookup p fs :
  path_exists p fs = true ↔ is_Some (lookup_path p fs).
Proof.
  unfold path_exists. destruct (lookup_path p fs); split; intros H;
    try done; try (by eexists); by destruct H.
Qed.

Lemma path_exists_false p fs :
  path_exists p fs = false ↔ lookup_path p fs = None.
Proof. unfold path_exists. destruct (lookup_path p fs); split; congruence. Qed.

Lemma is_dir_exists p fs : is_dir p fs = true → path_exists p fs = true.
Proof. unfold is_dir, path_exists. by destruct (lookup_path p fs). Qed.

(** Below a file, and below nothing, there is nothing. *)
Lemma lookup_path_below p r fs :
  r ≠ [] → (∀ es, lookup_path p fs ≠ Some (Dir es)) →
  lookup_path (p ++ r) fs = None.
Proof.
  intros Hr Hp. rewrite lookup_path_app.
  destruct (lookup_path p fs) as [[d|es]|]; simpl; [|by destruct (Hp es)|done].
  by destruct r.
Qed.

Lemma lookup_path_below_dir p q fs :
  q `prefix_of` p → is_Some (lookup_path p fs) → q ≠ p → is_dir q fs = true.
Proof.
  intros [r ->] [n Hn] Hne. rewrite lookup_path_app in Hn.
  unfold is_dir. destruct (lookup_path q fs) as [[d|es]|]; simpl in Hn; try done.
  destruct r; [by rewrite app_nil_r in Hne|done].
Qed.

(** *** mkdir_p *)

Lemma mkdir_p_cons_dir s q es :
  mkdir_p (s :: q) (Dir es) =
    match mkdir_p q (default (Dir ∅) (es !! s)) with
    | inr c => inr (Dir (<[s:=c]> es))
    | inl e => inl e
    end.
Proof. reflexivity. Qed.

Lemma mkdir_p_inv_dir p fs fs' :
  mkdir_p p fs = inr fs' → ∃ es, fs = Dir es.
Proof. destruct fs as [d|es]; [by destruct p|eauto]. Qed.

Lemma mkdir_p_nil fs fs' : mkdir_p [] fs = inr fs' → fs' = fs.
Proof. destruct fs; compute; congruence. Qed.

Lemma mkdir_p_prefix_is_dir p q fs fs' :
  mkdir_p p fs = inr fs' → q `prefix_of` p → is_dir q fs' = true.
Proof.
  revert q fs fs'. induction p as [|s p IH]; intros q fs fs' Hm Hq.
  - apply prefix_nil_inv in Hq as ->.
    destruct (mkdir_p_inv_dir _ _ _ Hm) as [es ->].
    by rewrite (mkdir_p_nil _ _ Hm).
  - destruct (mkdir_p_inv_dir _ _ _ Hm) as [es ->].
    rewrite mkdir_p_cons_dir in Hm.
    destruct (mkdir_p p _) as [e|c] eqn:Hc; [done|]. simplify_eq.
    destruct q as [|t q]; [done|].
    assert (t = s) as -> by (by apply prefix_cons_inv_1 in Hq).
    apply prefix_cons_inv_2 in Hq.
    unfold is_dir. rewrite lookup_path_dir_cons, lookup_insert_eq. simpl.
    by apply (IH q _ _ Hc).
Qed.

Lemma mkdir_p_is_dir p fs fs' : mkdir_p p fs = inr fs' → is_dir p fs' = true.
Proof. intros Hm. by eapply mkdir_p_prefix_is_dir. Qed.

(** Making a directory that is there changes nothing. *)
Lemma mkdir_p_id p fs : is_dir p fs = true → mkdir_p p fs = inr fs.
Proof.
  unfold is_dir. revert fs. induction p as [|s p IH]; intros fs Hd.
  - simpl in Hd. by destruct fs.
  - destruct fs as [d|es]; [done|].
    rewrite lookup_path_dir_cons in Hd. rewrite mkdir_p_cons_dir.
    destruct (es !! s) as [c|] eqn:Hs; simpl in *; [|done].
    rewrite (IH c Hd). by rewrite insert_id.
Qed.

Lemma mkdir_p_lookup_frame p q fs fs' :
  mkdir_p p fs = inr fs' → ¬ q `prefix_of` p →
  lookup_path q fs' = lookup_path q fs.
Proof.
  revert q fs fs'. induction p as [|s p IH]; intros q fs fs' Hm Hq.
  - by rewrite (mkdir_p_nil _ _ Hm).
  - destruct (mkdir_p_inv_dir _ _ _ Hm) as [es ->].
    rewrite mkdir_p_cons_dir in Hm.
    destruct (mkdir_p p _) as [e|c] eqn:Hc; [done|]. simplify_eq.
    destruct q as [|t q]; [destruct Hq; apply prefix_nil|].
    rewrite !lookup_path_dir_cons.
    destruct (decide (s = t)) as [->|Hne]; [|by rewrite lookup_insert_ne].
    rewrite lookup_insert_eq. simpl.
    assert (¬ q `prefix_of` p) as Hq' by (intros ?; apply Hq; by apply prefix_cons).
    rewrite (IH q _ _ Hc Hq').
    destruct (es !! t) as [c0|]; simpl; [done|].
    destruct q as [|u q]; [destruct Hq'; apply prefix_nil|].
    by rewrite lookup_path_dir_cons, lookup_empty.
Qed.

(** No component of a directory that could be made is a file. *)
Lemma mkdir_p_prefix_not_file p q fs fs' :
  mkdir_p p fs = inr fs' → q `prefix_of` p → is_file q fs = false.
Proof.
  revert q fs fs'. induction p as [|s p IH]; intros q fs fs' Hm Hq.
  - apply prefix_nil_inv in Hq as ->.
    by destruct (mkdir_p_inv_dir _ _ _ Hm) as [es ->].
  - destruct (mkdir_p_inv_dir _ _ _ Hm) as [es ->].
    rewrite mkdir_p_cons_dir in Hm.
    destruct (mkdir_p p _) as [e|c] eqn:Hc; [done|]. simplify_eq.
    destruct q as [|t q]; [done|].
    assert (t = s) as -> by (by apply prefix_cons_inv_1 in Hq).
    apply prefix_cons_inv_2 in Hq.
    unfold is_file. rewrite lookup_path_dir_cons.
    destruct (es !! s) as [c0|]; simpl in *; [|done].
    by apply (IH q _ _ Hc).
Qed.

Lemma mkdir_p_ok p fs :
  (∀ q, q `prefix_of` p → is_file q fs = false) → ∃ fs', mkdir_p p fs = inr fs'.
Proof.
  revert fs. induction p as [|s p IH]; intros fs Hf.
  - destruct fs as [d|es]; [by specialize (Hf [] (prefix_nil _))|eauto].
  - destruct fs as [d|es]; [by specialize (Hf [] (prefix_nil _))|].
    rewrite mkdir_p_cons_dir.
    destruct (IH (default (Dir ∅) (es !! s))) as [c Hc].
    + intros q Hq. specialize (Hf (s :: q) (prefix_cons _ _ _ Hq)).
      unfold is_file in *. rewrite lookup_path_dir_cons in Hf.
      destruct (es !! s) as [c0|]; simpl in *; [done|].
      destruct q; [done|]. by rewrite lookup_path_dir_cons, lookup_empty.
    + rewrite Hc. eauto.
Qed.

(** What was there before [mkdir_p] is there after it. *)
Lemma mkdir_p_stat_preserved p q k fs fs' :
  mkdir_p p fs = inr fs' → stat q fs = Some k → stat q fs' = Some k.
Proof.
  intros Hm Hk. destruct (decide (q `prefix_of` p)) as [Hq|Hq].
  - pose proof (mkdir_p_prefix_is_dir _ _ _ _ Hm Hq) as Hd.
    pose proof (mkdir_p_prefix_not_file _ _ _ _ Hm Hq) as Hf.
    apply is_dir_stat in Hd. rewrite Hd.
    unfold stat, is_file in *. destruct (lookup_path q fs) as [[d|es]|]; simpl in *; congruence.
  - unfold stat in *. by rewrite (mkdir_p_lookup_frame _ _ _ _ Hm Hq).
Qed.

(** Everything [mkdir_p] adds is a directory on the way to the one asked for. *)
Lemma mkdir_p_stat_cases p q fs fs' :
  mkdir_p p fs = inr fs' →
  stat q fs' = stat q fs
  ∨ (stat q fs = None ∧ stat q fs' = Some KDir ∧ q `prefix_of` p).
Proof.
  intros Hm. destruct (decide (q `prefix_of` p)) as [Hq|Hq].
  - destruct (stat q fs) as [k|] eqn:Hk.
    + left. by eapply mkdir_p_stat_preserved.
    + right. split; [done|]. split; [|done].
      apply is_dir_stat. by eapply mkdir_p_prefix_is_dir.
  - left. unfold stat. by rewrite (mkdir_p_lookup_frame _ _ _ _ Hm Hq).
Qed.

(** *** graft succeeds below a directory *)

Lemma parent_snoc p s : parent (p ++ [s]) = p.
Proof. unfold parent. apply removelast_last. Qed.

Lemma name_snoc p s : name (p ++ [s]) = s.
Proof. unfold name. apply last_last. Qed.

Lemma parent_prefix p : parent p `prefix_of` p.
Proof.
  destruct (decide (p = [])) as [->|Hne]; [done|].
  destruct (exists_last Hne) as (q & s & ->).
  rewrite parent_snoc. by apply prefix_app_r.
Qed.

Lemma path_snoc_inv (p : path) : p = [] ∨ ∃ q s, p = q ++ [s].
Proof.
  destruct (decide (p = [])) as [->|Hne]; [by left|right].
  destruct (exists_last Hne) as (q & s & ->). eauto.
Qed.

Lemma graft_snoc_ok p s v fs :
  is_dir p fs = true → is_Some (graft (p ++ [s]) v fs).
Proof.
  unfold is_dir. revert fs. induction p as [|t p IH]; intros fs Hd.
  - destruct fs as [d|es]; [done|]. simpl. rewrite graft_cons_dir. eauto.
  - destruct fs as [d|es]; [done|]. rewrite lookup_path_dir_cons in Hd.
    destruct (es !! t) as [c|] eqn:Ht; simpl in Hd; [|done].
    destruct (IH c Hd) as [c' Hc'].
    change ((t :: p) ++ [s]) with (t :: (p ++ [s])).
    rewrite graft_cons_dir.
    destruct (p ++ [s]) eqn:Hp; [by destruct p|].
    rewrite Ht. simpl. rewrite Hc'. simpl. eauto.
Qed.

(** *** write_bytes *)

Lemma write_bytes_inv p data fs fs' :
  write_bytes p data fs = inr fs' →
  graft p (Some (File data)) fs = Some fs' ∧ is_dir p fs = false.
Proof.
  unfold write_bytes, is_dir.
  destruct (lookup_path p fs) as [[d|es]|]; [|done|];
    destruct (graft _ _ _); naive_solver.
Qed.

Lemma write_bytes_lookup p data fs fs' :
  write_bytes p data fs = inr fs' → lookup_path p fs' = Some (File data).
Proof. intros [Hg _]%write_bytes_inv. by eapply graft_lookup. Qed.

(** Writing a file changes the kind and the bytes of no other path. *)
Lemma write_bytes_frame p q data fs fs' :
  write_bytes p data fs = inr fs' → q ≠ p → stat q fs' = stat q fs.
Proof.
  intros [Hg Hd]%write_bytes_inv Hne.
  destruct (decide (p `prefix_of` q)) as [[r ->]|Hpq].
  - assert (r ≠ []) by (intros ->; by rewrite app_nil_r in Hne).
    unfold stat. rewrite (graft_lookup_under _ _ _ _ _ Hg). simpl.
    rewrite lookup_path_below; [by destruct r|done|].
    intros es Hes. unfold is_dir in Hd. by rewrite Hes in Hd.
  - destruct (decide (q `prefix_of` p)) as [Hqp|Hqp].
    + destruct (graft_above _ _ _ _ _ Hg Hqp Hne) as [H1 H2].
      apply is_dir_stat in H1, H2. congruence.
    + unfold stat. by rewrite (graft_lookup_other _ _ _ _ _ Hg).
Qed.

Lemma write_bytes_ok p data fs :
  p ≠ [] → is_dir (parent p) fs = true → is_dir p fs = false →
  ∃ fs', write_bytes p data fs = inr fs'.
Proof.
  intros Hne Hpar Hd.
  destruct (path_snoc_inv p) as [->|(q & s & ->)]; [done|].
  rewrite parent_snoc in Hpar.
  destruct (graft_snoc_ok q s (Some (File data)) fs Hpar) as [fs' Hg].
  exists fs'. unfold write_bytes, is_dir in *.
  rewrite Hg. by destruct (lookup_path (q ++ [s]) fs) as [[d|es]|].
Qed.

(** *** rmtree *)

Lemma rmtree_inv p fs fs' :
  rmtree p fs = inr fs' → graft p None fs = Some fs' ∧ is_dir p fs = true.
Proof.
  unfold rmtree, is_dir.
  destruct (lookup_path p fs) as [[d|es]|]; [done| |done].
  destruct (graft _ _ _); naive_solver.
Qed.

Lemma rmtree_lookup p fs fs' :
  rmtree p fs = inr fs' → lookup_path p fs' = None.
Proof. intros [Hg _]%rmtree_inv. by eapply graft_lookup. Qed.

(** *** copytree *)

Lemma copytree_inv src dst fs fs' :
  copytree src dst fs = inr fs' →
  ∃ es fs1, lookup_path src fs = Some (Dir es) ∧ path_exists dst fs = false
            ∧ mkdir_p (parent dst) fs = inr fs1
            ∧ graft dst (Some (Dir es)) fs1 = Some fs'.
Proof.
  unfold copytree.
  destruct (lookup_path src fs) as [[d|es]|]; [done| |done].
  destruct (path_exists dst fs); [done|].
  destruct (mkdir_p _ _) as [e|fs1]; [done|].
  destruct (graft _ _ _) eqn:Hg; [|done]. intros ?; simplify_eq. eauto 10.
Qed.

(** The destination is the source, entry for entry. *)
Lemma copytree_lookup src dst fs fs' :
  copytree src dst fs = inr fs' → lookup_path dst fs' = lookup_path src fs.
Proof.
  intros (es & fs1 & Hs & _ & _ & Hg)%copytree_inv.
  rewrite Hs. by eapply graft_lookup.
Qed.

(** *** copy2 *)

Lemma copy2_inv src dst fs fs' :
  copy2 src dst fs = inr fs' →
  ∃ data, lookup_path src fs = Some (File data)
          ∧ write_bytes (copy2_target src dst fs) data fs = inr fs'.
Proof.
  unfold copy2, copy2_target.
  destruct (lookup_path src fs) as [[d|es]|]; [|done|done].
  case_decide; [done|]. eauto.
Qed.

(** *** What is changed lies below the destination *)

Lemma same_outside_refl d fs : same_outside d fs fs.
Proof. by intros q _ _. Qed.

Lemma same_outside_trans d fs1 fs2 fs3 :
  same_outside d fs1 fs2 → same_outside d fs2 fs3 → same_outside d fs1 fs3.
Proof. intros H1 H2 q Ha Hb. by rewrite H2, H1. Qed.

Lemma same_outside_below d d' fs fs' :
  d `prefix_of` d' → same_outside d' fs fs' → same_outside d fs fs'.
Proof.
  intros Hd H q Ha Hb. apply H.
  - intros Hq. apply Ha. by etrans.
  - intros Hq. destruct (prefix_weak_total _ _ _ Hd Hq); done.
Qed.

Lemma graft_same_outside p v fs fs' :
  graft p v fs = Some fs' → same_outside p fs fs'.
Proof. intros Hg q Ha Hb. by eapply graft_lookup_other. Qed.

Lemma mkdir_p_same_outside p fs fs' :
  mkdir_p p fs = inr fs' → same_outside p fs fs'.
Proof. intros Hm q Ha Hb. by eapply mkdir_p_lookup_frame. Qed.

Lemma rmtree_same_outside p fs fs' :
  rmtree p fs = inr fs' → same_outside p fs fs'.
Proof. intros [Hg _]%rmtree_inv. by apply (graft_same_outside _ _ _ _ Hg). Qed.

Lemma copytree_same_outside src dst fs fs' :
  copytree src dst fs = inr fs' → same_outside dst fs fs'.
Proof.
  intros (es & fs1 & _ & _ & Hm & Hg)%copytree_inv.
  apply (same_outside_trans _ fs fs1 fs');
    [|by apply (graft_same_outside _ _ _ _ Hg)].
  intros q Ha Hb. eapply mkdir_p_lookup_frame; [done|].
  intros Hq. apply Hb. etrans; [done|apply parent_prefix].
Qed.

Lemma copy2_same_outside src dst fs fs' :
  copy2 src dst fs = inr fs' → same_outside dst fs fs'.
Proof.
  intros (data & _ & [Hg _]%write_bytes_inv)%copy2_inv.
  eapply same_outside_below; [|by apply (graft_same_outside _ _ _ _ Hg)].
  unfold copy2_target. destruct (is_dir dst fs); [by apply prefix_app_r|done].
Qed.

(** *** The monad *)

Lemma bind_ok {A B} (m : M A) (k : A → M B) fs fs1 a :
  m fs = (fs1, inr a) → bind m k fs = k a fs1.
Proof. unfold bind. by intros ->. Qed.

Lemma bind_err {A B} (m : M A) (k : A → M B) fs fs1 e :
  m fs = (fs1, inl e) → bind m k fs = (fs1, inl e).
Proof. unfold bind. by intros ->. Qed.

Lemma bind_inv {A B} (m : M A) (k : A → M B) fs fs' r :
  bind m k fs = (fs', r) →
  (∃ e, m fs = (fs', inl e) ∧ r = inl e)
  ∨ (∃ fs1 a, m fs = (fs1, inr a) ∧ k a fs1 = (fs', r)).
Proof.
  unfold bind. destruct (m fs) as [fs1 [e|a]]; intros Hk.
  - left. exists e. by simplify_eq.
  - right. eauto.
Qed.


Lemma bind_ext_r {A B} (m : M A) (k1 k2 : A → M B) fs :
  (∀ a fs', k1 a fs' = k2 a fs') → bind m k1 fs = bind m k2 fs.
Proof. unfold bind. intros Hk. by destruct (m fs) as [fs1 [e|a]]. Qed.

Lemma bind_assoc {A B C} (m : M A) (k : A → M B) (k' : B → M C) fs :
  bind (bind m k) k' fs = bind m (λ a, bind (k a) k') fs.
Proof. unfold bind. by destruct (m fs) as [fs1 [e|a]]. Qed.

Lemma bind_ret {A B} (a : A) (k : A → M B) fs : bind (ret a) k fs = k a fs.
Proof. done. Qed.

Lemma io_ok op fs fs' : op fs = inr fs' → io op fs = (fs', inr tt).
Proof. unfold io. by intros ->. Qed.

Lemma io_err op fs e : op fs = inl e → io op fs = (fs, inl e).
Proof. unfold io. by intros ->. Qed.

Lemma io_inv op fs fs' r :
  io op fs = (fs', r) →
  (∃ e, op fs = inl e ∧ fs' = fs ∧ r = inl e)
  ∨ (op fs = inr fs' ∧ r = inr tt).
Proof.
  unfold io. destruct (op fs) as [e|fs1]; intros ?; simplify_eq; eauto.
Qed.

Lemma for_each_cons {A} (body : A → M unit) x xs fs :
  for_each body (x :: xs) fs = bind (body x) (λ _, for_each body xs) fs.
Proof. done. Qed.


Lemma for_each_fmap {A B} (f : A → B) (body : B → M unit) xs fs :
  for_each body (f <$> xs) fs = for_each (λ x, body (f x)) xs fs.
Proof.
  revert fs. induction xs as [|x xs IH]; intros fs; [done|].
  rewrite fmap_cons, !for_each_cons. unfold bind.
  destruct (body (f x) fs) as [fs1 [e|[]]]; [done|]. apply IH.
Qed.

Lemma for_each_ext {A} (body1 body2 : A → M unit) xs fs :
  (∀ x fs, body1 x fs = body2 x fs) →
  for_each body1 xs fs = for_each body2 xs fs.
Proof.
  intros Hb. revert fs. induction xs as [|x xs IH]; intros fs; [done|].
  rewrite !for_each_cons. unfold bind. rewrite Hb.
  destruct (body2 x fs) as [fs1 [e|[]]]; [done|]. apply IH.
Qed.

(** A property every round keeps, however the round ends, is kept by the
    loop, however the loop ends. *)
Lemma for_each_preserves {A} (P : node → Prop) (body : A → M unit) xs :
  (∀ x fs fs' r, body x fs = (fs', r) → P fs → P fs') →
  ∀ fs fs' r, for_each body xs fs = (fs', r) → P fs → P fs'.
Proof.
  intros Hbody. induction xs as [|x xs IH]; intros fs fs' r Hl HP.
  - unfold for_each, ret in Hl. by simplify_eq.
  - rewrite for_each_cons in Hl.
    apply bind_inv in Hl as [(e & Hx & _)|(fs1 & [] & Hx & Hl)]; eauto.
Qed.

(** *** ensure_build_dirs *)

Lemma mkdir_p_keeps_dirs p q fs fs' :
  mkdir_p p fs = inr fs' → is_dir q fs = true → is_dir q fs' = true.
Proof.
  intros Hm Hd. apply is_dir_stat. apply is_dir_stat in Hd.
  by eapply mkdir_p_stat_preserved.
Qed.

Lemma mkdirs_spec (ps : list path) fs fs' r :
  for_each (λ p, io (mkdir_p p)) ps fs = (fs', r) →
  (∀ q, is_dir q fs = true → is_dir q fs' = true)
  ∧ for_each (λ p, io (mkdir_p p)) ps fs' = (fs', r)
  ∧ (r = inr tt → ∀ p, p ∈ ps → is_dir p fs' = true).
Proof.
  revert fs. induction ps as [|p ps IH]; intros fs Hl.
  - unfold for_each, ret in *. simplify_eq. split_and!; [done..|].
    intros _ p Hp. by apply elem_of_nil in Hp.
  - rewrite for_each_cons in Hl.
    apply bind_inv in Hl as [(e & Hp & ->)|(fs1 & [] & Hp & Hl)].
    + apply io_inv in Hp as [(e' & Hm & -> & ?)|[_ ?]]; [|done]. simplify_eq.
      split_and!; [done| |done].
      rewrite for_each_cons. apply bind_err. by apply io_err.
    + apply io_inv in Hp as [(e' & _ & _ & ?)|[Hm _]]; [done|].
      destruct (IH _ Hl) as (Hk & Hagain & Hall).
      assert (is_dir p fs' = true) as Hp'
        by (apply Hk; by eapply mkdir_p_is_dir).
      split_and!.
      * intros q Hq. apply Hk. by eapply mkdir_p_keeps_dirs.
      * rewrite for_each_cons.
        rewrite (bind_ok _ _ fs' fs' ()); [done|].
        apply io_ok. by apply mkdir_p_id.
      * intros Hr q [->|Hq]%elem_of_cons; [done|by apply Hall].
Qed.


Section BuilderFacts.
Context `{J : Jinja2}.

Lemma ensure_build_dirs_unfold self subdirs fs :
  ensure_build_dirs self subdirs fs
  = for_each (λ p, io (mkdir_p p)) (build_dirs self subdirs) fs.
Proof.
  unfold ensure_build_dirs, build_dirs. rewrite for_each_cons.
  unfold bind. destruct (io _ fs) as [fs1 [e|[]]]; [done|].
  destruct subdirs as [[|s l]|]; [done| |done].
  change (default [] (Some (s :: l))) with (s :: l).
  by rewrite for_each_fmap.
Qed.

Lemma ensure_build_dirs_again self subdirs fs fs1 r1 :
  ensure_build_dirs self subdirs fs = (fs1, r1) →
  ensure_build_dirs self subdirs fs1 = (fs1, r1)
  ∧ (r1 = inr tt →
     is_dir (build_dir self) fs1 = true
     ∧ ∀ s, s ∈ default [] subdirs →
            is_dir (joinpath (build_dir self) s) fs1 = true).
Proof.
  rewrite !ensure_build_dirs_unfold. intros Hl.
  destruct (mkdirs_spec _ _ _ _ Hl) as (_ & Hagain & Hall).
  split; [done|]. intros Hr. specialize (Hall Hr). split.
  - apply Hall. by left.
  - intros s Hs. apply Hall. right. by apply list_elem_of_fmap_2.
Qed.
End BuilderFacts.

(** *** write_text *)

(** Writing where something was written is writing there. *)
Lemma graft_graft p v w fs fs0 :
  graft p (Some v) fs = Some fs0 → graft p w fs0 = graft p w fs.
Proof.
  revert fs fs0. induction p as [|s q IH]; intros fs fs0 Hg; [done|].
  destruct fs as [d|es]; [done|]. rewrite graft_cons_dir in Hg.
  destruct q as [|s' q'].
  - injection Hg as <-. rewrite !graft_cons_dir.
    destruct w; by rewrite ?insert_insert_eq, ?delete_insert_eq.
  - destruct (es !! s) as [c|] eqn:Hs; [|done]. simpl in Hg.
    destruct (graft (s' :: q') (Some v) c) as [c'|] eqn:Hc; [|done].
    injection Hg as <-. rewrite !graft_cons_dir, lookup_insert_eq, Hs. simpl.
    rewrite (IH _ _ Hc). destruct (graft (s' :: q') w c); simpl; [|done].
    by rewrite insert_insert_eq.
Qed.

Lemma graft_some_ok p v w fs fs0 :
  graft p (Some v) fs = Some fs0 → is_Some (graft p (Some w) fs).
Proof.
  revert fs fs0. induction p as [|s q IH]; intros fs fs0 Hg; [by eexists|].
  destruct fs as [d|es]; [done|]. rewrite graft_cons_dir in Hg.
  rewrite graft_cons_dir. destruct q as [|s' q']; [by eexists|].
  destruct (es !! s) as [c|]; [|done]. simpl in *.
  destruct (graft (s' :: q') (Some v) c) as [c'|] eqn:Hc; [|done].
  destruct (IH _ _ Hc) as [c'' ->]. by eexists.
Qed.

Lemma write_bytes_again p a b fs fs0 :
  write_bytes p a fs = inr fs0 →
  write_bytes p b fs0 = write_bytes p b fs
  ∧ ∃ fs', write_bytes p b fs = inr fs'.
Proof.
  intros Hw. pose proof (write_bytes_lookup _ _ _ _ Hw) as Hl.
  apply write_bytes_inv in Hw as [Hg Hd].
  destruct (graft_some_ok _ _ (File b) _ _ Hg) as [fs' Hg'].
  assert (write_bytes p b fs = inr fs') as Hb.
  { unfold write_bytes, is_dir in *. rewrite Hg'.
    by destruct (lookup_path p fs) as [[?|?]|]. }
  split; [|by exists fs']. rewrite Hb. unfold write_bytes.
  by rewrite Hl, (graft_graft _ _ _ _ _ Hg), Hg'.
Qed.

Section WriteText.
Context `{L : Locale}.

Lemma write_text_unfold p data fs :
write_text p data fs =
  match write_bytes p EmptyString fs with
  | inl e => (fs, inl e)
  | inr fs0 =>
      match encode data with
      | inl e => (fs0, inl e)
      | inr bytes =>
          match write_bytes p bytes fs with
          | inl e => (fs0, inl e)
          | inr fs' => (fs', inr tt)
          end
      end
  end.
Proof.
unfold write_text, bind, io, lift.
destruct (write_bytes p EmptyString fs) as [e|fs0] eqn:Hw; [done|].
destruct (encode data) as [e|bytes]; [done|].
destruct (write_bytes_again _ _ bytes _ _ Hw) as [-> _].
by destruct (write_bytes p bytes fs).
Qed.

Lemma write_text_ok p data bytes fs fs' :
encode data = inr bytes → write_bytes p bytes fs = inr fs' →
write_text p data fs = (fs', inr tt).
Proof.
intros He Hw. rewrite write_text_unfold, He, Hw.
destruct (write_bytes_again _ _ EmptyString _ _ Hw) as [_ [fs0 ->]]. done.
Qed.

Lemma write_text_inv_ok p data fs fs' :
write_text p data fs = (fs', inr tt) →
∃ bytes, encode data = inr bytes ∧ write_bytes p bytes fs = inr fs'.
Proof.
rewrite write_text_unfold.
destruct (write_bytes p EmptyString fs) as [e|fs0]; [done|].
destruct (encode data) as [e|bytes]; [done|].
destruct (write_bytes p bytes fs) as [e|fs1] eqn:Hw; [done|].
intros [= <-]. eauto.
Qed.

(** A [write_text] that raises has changed nothing, or could open the
  file but not encode the text, and has left the file empty. *)
Lemma write_text_inv_err p data fs fs' e :
write_text p data fs = (fs', inl e) →
fs' = fs
∨ (encode data = inl e ∧ write_bytes p EmptyString fs = inr fs').
Proof.
rewrite write_text_unfold.
destruct (write_bytes p EmptyString fs) as [e0|fs0] eqn:Hw;
  [intros [= <- _]; by left|].
destruct (encode data) as [e0|bytes]; [intros [= <- <-]; by right|].
destruct (write_bytes_again _ _ bytes _ _ Hw) as [_ [fs1 ->]]. done.
Qed.
End WriteText.

Section RenderFacts.
Context `{J : Jinja2} `{L : Locale}.

Lemma render_template_unfold self tpl ctx out fs :
render_template self tpl ctx out fs =
  match get_template (env self) tpl fs with
  | inl e => (fs, inl e)
  | inr T =>
      match render T (default ∅ ctx) with
      | inl e => (fs, inl e)
      | inr html =>
          match mkdir_p (parent (output_path self tpl out)) fs with
          | inl e => (fs, inl e)
          | inr fs1 =>
              match write_text (output_path self tpl out) html fs1 with
              | (fs2, inl e) => (fs2, inl e)
              | (fs2, inr _) => (fs2, inr html)
              end
          end
      end
  end.
Proof.
unfold render_template, output_path, bind, try_ask, lift, io, ret.
destruct (get_template _ _ _) as [e|T]; [done|].
destruct (render _ _) as [e|html]; [done|].
destruct (mkdir_p _ _) as [e|fs1]; [done|].
by destruct (write_text _ _ _) as [fs2 [e|[]]].
Qed.

Lemma render_template_inv_ok self tpl ctx out fs fs' html :
render_template self tpl ctx out fs = (fs', inr html) →
∃ T fs1 bytes,
  get_template (env self) tpl fs = inr T
  ∧ render T (default ∅ ctx) = inr html
  ∧ mkdir_p (parent (output_path self tpl out)) fs = inr fs1
  ∧ encode html = inr bytes
  ∧ write_bytes (output_path self tpl out) bytes fs1 = inr fs'.
Proof.
rewrite render_template_unfold.
destruct (get_template _ _ _) as [e|T]; [done|].
destruct (render _ _) as [e|h] eqn:Hr; [done|].
destruct (mkdir_p _ _) as [e|fs1] eqn:Hm; [done|].
destruct (write_text _ _ _) as [fs2 [e|[]]] eqn:Hw; [done|].
intros [= <- <-]. apply write_text_inv_ok in Hw as (bytes & He & Hw).
by exists T, fs1, bytes.
Qed.

(** What a call that raises has done: nothing; or made directories above
  the output path; or that and, the text being one the locale can not
  encode, left an empty file at the output path. *)
Lemma render_template_inv_err self tpl ctx out fs fs' e :
render_template self tpl ctx out fs = (fs', inl e) →
fs' = fs
∨ ∃ T html fs1,
    get_template (env self) tpl fs = inr T
    ∧ render T (default ∅ ctx) = inr html
    ∧ mkdir_p (parent (output_path self tpl out)) fs = inr fs1
    ∧ (fs' = fs1
       ∨ (encode html = inl e
          ∧ write_bytes (output_path self tpl out) EmptyString fs1
            = inr fs')).
Proof.
rewrite render_template_unfold.
destruct (get_template _ _ _) as [e1|T] eqn:HT; [intros [= <- _]; by left|].
destruct (render _ _) as [e1|h] eqn:Hr; [intros [= <- _]; by left|].
destruct (mkdir_p _ _) as [e1|fs1] eqn:Hm; [intros [= <- _]; by left|].
destruct (write_text _ _ _) as [fs2 [e1|[]]] eqn:Hw; [|done].
intros [= <- <-]. right. exists T, h, fs1.
split; [done|]. split; [done|]. split; [done|].
apply write_text_inv_err in Hw as [->|?]; [by left|by right].
Qed.

Lemma snoc_not_prefix (q : path) s : ¬ (q ++ [s]) `prefix_of` q.
Proof.
intros Hp. apply prefix_length in Hp. rewrite length_app in Hp.
simpl in Hp. lia.
Qed.


(** The output path of a call that raises holds what it held, or, when
  the text could not be encoded, an empty file. *)
Lemma render_template_err_output self tpl ctx out fs fs' e :
render_template self tpl ctx out fs = (fs', inl e) →
stat (output_path self tpl out) fs' = stat (output_path self tpl out) fs
∨ (stat (output_path self tpl out) fs' = Some (KFile EmptyString)
   ∧ ∃ T html, get_template (env self) tpl fs = inr T
               ∧ render T (default ∅ ctx) = inr html
               ∧ encode html = inl e).
Proof.
intros [->|(T & html & fs1 & HT & Hr & Hm & Hw)]%render_template_inv_err;
  [by left|].
set (p := output_path self tpl out) in *.
assert (stat p fs1 = stat p fs) as Hp.
{ destruct (mkdir_p_stat_cases _ p _ _ Hm) as [?|(Hn & _ & Hpre)]; [done|].
  destruct (path_snoc_inv p) as [Hnil|(q0 & s & Hq)].
  - rewrite Hnil in Hn. done.
  - rewrite Hq, parent_snoc in Hpre. by apply snoc_not_prefix in Hpre. }
destruct Hw as [->|[He Hw]]; [by left|].
right. split; [|by exists T, html].
unfold stat. by rewrite (write_bytes_lookup _ _ _ _ Hw).
Qed.

Lemma render_template_spec self tpl ctx out fs T html bytes :
get_template (env self) tpl fs = inr T →
render T (default ∅ ctx) = inr html →
encode html = inr bytes →
(∀ q, q `prefix_of` parent (output_path self tpl out) →
      is_file q fs = false) →
is_dir (output_path self tpl out) fs = false →
∃ fs',
  render_template self tpl ctx out fs = (fs', inr html)
  ∧ lookup_path (output_path self tpl out) fs' = Some (File bytes)
  ∧ is_dir (parent (output_path self tpl out)) fs' = true
  ∧ ∀ q, q ≠ output_path self tpl out →
         stat q fs' = stat q fs
         ∨ (stat q fs = None ∧ stat q fs' = Some KDir
            ∧ q `prefix_of` parent (output_path self tpl out)).
Proof.
intros HT Hr He Hfree Hnd. set (p := output_path self tpl out) in *.
destruct (mkdir_p_ok _ _ Hfree) as [fs1 Hm].
destruct (path_snoc_inv p) as [Hp|(q0 & s & Hp)].
{ rewrite Hp in *. specialize (Hfree [] (prefix_nil _)).
  unfold is_file, is_dir in *. simpl in *. by destruct fs. }
assert (is_dir (parent p) fs1 = true) as Hpar by by eapply mkdir_p_is_dir.
assert (is_dir p fs1 = false) as Hnd1.
{ unfold is_dir in *. rewrite (mkdir_p_lookup_frame _ _ _ _ Hm); [done|].
  rewrite Hp, parent_snoc. apply snoc_not_prefix. }
destruct (write_bytes_ok p bytes fs1) as [fs2 Hw];
  [by rewrite Hp; destruct q0|done..|].
exists fs2. split_and!.
- rewrite render_template_unfold. fold p. rewrite HT, Hr, Hm.
  by rewrite (write_text_ok _ _ _ _ _ He Hw).
- by eapply write_bytes_lookup.
- apply is_dir_stat. rewrite (write_bytes_frame _ _ _ _ _ Hw).
  + by apply is_dir_stat.
  + rewrite Hp at 2. rewrite Hp, parent_snoc. intros Heq.
    apply (f_equal length) in Heq. rewrite length_app in Heq.
    simpl in Heq. lia.
- intros q Hq. rewrite (write_bytes_frame _ _ _ _ _ Hw Hq).
  by eapply mkdir_p_stat_cases.
Qed.

(** *** render_pages *)

Lemma render_pages_unfold self pages ctx fs :
render_pages self pages ctx fs
= for_each (λ pg, _ <- render_page self ctx pg ;; ret tt) pages fs.
Proof.
unfold render_pages, render_page. apply for_each_ext.
intros pg fs0. by destruct (page_names pg).
Qed.


Lemma render_pages_cons self pg pages ctx fs :
render_pages self (pg :: pages) ctx fs
= bind (render_page self ctx pg) (λ _, render_pages self pages ctx) fs.
Proof.
rewrite render_pages_unfold, for_each_cons, bind_assoc.
apply bind_ext_r. intros h fs1. rewrite bind_ret.
symmetry. apply render_pages_unfold.
Qed.
End RenderFacts.

Lemma unrelated_sym p q : unrelated p q → unrelated q p.
Proof. intros [? ?]. by split. Qed.

Lemma unrelated_app p q r r' : unrelated p q → unrelated (p ++ r) (q ++ r').
Proof.
  intros [Hpq Hqp]. split; intros Hpre.
  - assert (p `prefix_of` q ++ r') as H1 by (etrans; [by apply prefix_app_r|done]).
    assert (q `prefix_of` q ++ r') as H2 by (by apply prefix_app_r).
    destruct (prefix_weak_total _ _ _ H1 H2); done.
  - assert (q `prefix_of` p ++ r) as H1 by (etrans; [by apply prefix_app_r|done]).
    assert (p `prefix_of` p ++ r) as H2 by (by apply prefix_app_r).
    destruct (prefix_weak_total _ _ _ H1 H2); done.
Qed.


Lemma unrelated_app_r p q r : unrelated p q → unrelated p (q ++ r).
Proof. intros H. rewrite <- (app_nil_r p). by apply unrelated_app. Qed.

Lemma unrelated_siblings (d : path) n m r r' :
  n ≠ m → unrelated (d ++ n :: r) (d ++ m :: r').
Proof.
  intros Hne. split; intros Hp; apply prefix_app_inv in Hp;
    apply prefix_cons_inv_1 in Hp; congruence.
Qed.

Lemma same_outside_unrelated d q fs fs' :
  same_outside d fs fs' → unrelated d q → lookup_path q fs' = lookup_path q fs.
Proof. intros H [? ?]. by apply H. Qed.

Lemma strict_prefix_snoc (d : path) s : d `prefix_of` d ++ [s] ∧ d ≠ d ++ [s].
Proof.
  split; [by apply prefix_app_r|]. intros Heq.
  apply (f_equal length) in Heq. rewrite length_app in Heq. simpl in Heq. lia.
Qed.

(** *** One round of the loop of copy_static_assets *)

Lemma copy_item_unfold sdst pats item fs :
  copy_item sdst pats item fs =
    match any_match item pats with
    | inl e => (fs, inl e)
    | inr true => (fs, inr tt)
    | inr false =>
        if is_dir item fs then
          match (if path_exists (sdst ++ [name item]) fs
                 then rmtree (sdst ++ [name item]) fs else inr fs) with
          | inl e => (fs, inl e)
          | inr fs1 =>
              match copytree item (sdst ++ [name item]) fs1 with
              | inl e => (fs1, inl e)
              | inr fs2 => (fs2, inr tt)
              end
          end
        else
          match copy2 item (sdst ++ [name item]) fs with
          | inl e => (fs, inl e)
          | inr fs2 => (fs2, inr tt)
          end
    end.
Proof.
  unfold copy_item, bind, lift, ask, io, ret.
  destruct (any_match item pats) as [e|[|]]; [done..|].
  destruct (is_dir item fs); [|by destruct (copy2 _ _ _)].
  destruct (path_exists _ fs).
  - destruct (rmtree _ fs) as [e|fs1]; [done|]. by destruct (copytree _ _ _).
  - by destruct (copytree _ _ _).
Qed.

(** However a round ends, it has changed nothing outside its destination. *)
Lemma copy_item_same_outside sdst pats item fs fs' r :
  copy_item sdst pats item fs = (fs', r) →
  same_outside (sdst ++ [name item]) fs fs'.
Proof.
  rewrite copy_item_unfold.
  destruct (any_match item pats) as [e|[|]];
    [intros [= <- <-]; apply same_outside_refl..|].
  destruct (is_dir item fs).
  - destruct (path_exists _ fs).
    + destruct (rmtree _ fs) as [e|fs1] eqn:Hrm;
        [intros [= <- <-]; apply same_outside_refl|].
      apply rmtree_same_outside in Hrm.
      destruct (copytree _ _ _) as [e|fs2] eqn:Hc; intros [= <- <-]; [done|].
      eapply same_outside_trans; [done|]. by eapply copytree_same_outside.
    + destruct (copytree _ _ _) as [e|fs2] eqn:Hc; intros [= <- <-];
        [apply same_outside_refl|]. by eapply copytree_same_outside.
  - destruct (copy2 _ _ _) as [e|fs2] eqn:Hc; intros [= <- <-];
      [apply same_outside_refl|]. by eapply copy2_same_outside.
Qed.

Lemma rmtree_keeps_above p q fs fs' :
  rmtree p fs = inr fs' → q `prefix_of` p → q ≠ p → is_dir q fs' = true.
Proof. intros [Hg _]%rmtree_inv Hq Hne. by eapply graft_above. Qed.

Lemma copytree_keeps_above src dst q fs fs' :
  copytree src dst fs = inr fs' → q `prefix_of` dst → q ≠ dst →
  is_dir q fs' = true.
Proof.
  intros (es & fs1 & _ & _ & _ & Hg)%copytree_inv Hq Hne.
  by eapply graft_above.
Qed.

Lemma copy2_keeps_above src dst q fs fs' :
  copy2 src dst fs = inr fs' → q `prefix_of` dst → q ≠ dst →
  is_dir q fs' = true.
Proof.
  intros (data & _ & [Hg _]%write_bytes_inv)%copy2_inv Hq Hne.
  eapply graft_above; [done| |].
  - unfold copy2_target. destruct (is_dir dst fs); [|done].
    etrans; [done|]. by apply prefix_app_r.
  - unfold copy2_target. destruct (is_dir dst fs); [|done].
    intros ->. apply prefix_length in Hq. rewrite length_app in Hq.
    simpl in Hq. lia.
Qed.

(** However a round ends, the directory it copies into is still there. *)
Lemma copy_item_keeps_dest sdst pats item fs fs' r :
  copy_item sdst pats item fs = (fs', r) →
  is_dir sdst fs = true → is_dir sdst fs' = true.
Proof.
  rewrite copy_item_unfold. intros Hc Hd.
  destruct (strict_prefix_snoc sdst (name item)) as [Hpre Hne].
  destruct (any_match item pats) as [e|[|]]; [by simplify_eq..|].
  destruct (is_dir item fs).
  - assert (∀ fs1, (if path_exists (sdst ++ [name item]) fs
                    then rmtree (sdst ++ [name item]) fs else inr fs) = inr fs1 →
                   is_dir sdst fs1 = true) as Hfs1.
    { intros fs1. destruct (path_exists _ fs); [|by intros [= <-]].
      intros Hrm. by eapply rmtree_keeps_above. }
    destruct (if path_exists _ fs then _ else _) as [e|fs1]; [by simplify_eq|].
    specialize (Hfs1 fs1 eq_refl).
    destruct (copytree _ _ _) as [e|fs2] eqn:Hct; simplify_eq; [done|].
    by eapply copytree_keeps_above.
  - destruct (copy2 _ _ _) as [e|fs2] eqn:Hc2; simplify_eq; [done|].
    by eapply copy2_keeps_above.
Qed.

Lemma copy_item_copied sd sdst pats n fs fs' :
  unrelated sd sdst →
  copy_item sdst pats (sd ++ [n]) fs = (fs', inr tt) →
  copied sd sdst pats n fs fs'.
Proof.
  intros Hun. rewrite copy_item_unfold, name_snoc. unfold copied.
  destruct (any_match _ pats) as [e|[|]]; [done| |].
  { intros [= <-]. by exists true. }
  intros Hc. exists false. split; [done|].
  unfold is_dir in Hc at 1.
  destruct (lookup_path (sd ++ [n]) fs) as [[d|es]|] eqn:Hsrc.
  - destruct (copy2 _ _ _) as [e|fs2] eqn:Hc2; simplify_eq.
    apply copy2_inv in Hc2 as (data & Hd & Hw). rewrite Hsrc in Hd.
    simplify_eq. by eapply write_bytes_lookup.
  - assert (∀ fs1, (if path_exists (sdst ++ [n]) fs
                    then rmtree (sdst ++ [n]) fs else inr fs) = inr fs1 →
                   lookup_path (sd ++ [n]) fs1 = Some (Dir es)) as Hfs1.
    { intros fs1. destruct (path_exists _ fs); [|by intros [= <-]].
      intros Hrm%rmtree_same_outside. rewrite <- Hsrc.
      eapply same_outside_unrelated; [done|].
      apply unrelated_sym. by apply unrelated_app. }
    destruct (if path_exists _ fs then _ else _) as [e|fs1]; [by simplify_eq|].
    specialize (Hfs1 fs1 eq_refl).
    destruct (copytree _ _ _) as [e|fs2] eqn:Hct; simplify_eq.
    by rewrite (copytree_lookup _ _ _ _ Hct).
  - destruct (copy2 _ _ _) as [e|fs2] eqn:Hc2; simplify_eq.
    apply copy2_inv in Hc2 as (data & Hd & _). congruence.
Qed.

(** [copied] looks at the start only outside the destinations of other
    entries, and at the end only below the destination of its entry. *)
Lemma copied_start sd sdst pats n m fs0 fs fs' :
  unrelated sd sdst → n ≠ m →
  same_outside (sdst ++ [m]) fs0 fs →
  copied sd sdst pats n fs fs' → copied sd sdst pats n fs0 fs'.
Proof.
  intros Hun Hne Hso (b & Hb & Hc). exists b. split; [done|].
  assert (lookup_path (sdst ++ [n]) fs = lookup_path (sdst ++ [n]) fs0) as Hd.
  { eapply same_outside_unrelated; [done|].
    rewrite <- (app_nil_r (sdst ++ [m])), <- !app_assoc. simpl.
    apply unrelated_siblings. congruence. }
  destruct b; [by rewrite <- Hd|].
  assert (lookup_path (sd ++ [n]) fs = lookup_path (sd ++ [n]) fs0) as Hs.
  { eapply same_outside_unrelated; [done|].
    apply unrelated_sym. by apply unrelated_app. }
  rewrite <- Hs. unfold copy2_target, is_dir in *. by rewrite <- Hd.
Qed.

Lemma copied_end sd sdst pats n fs fs1 fs' :
  (∀ r, lookup_path (sdst ++ n :: r) fs' = lookup_path (sdst ++ n :: r) fs1) →
  copied sd sdst pats n fs fs1 → copied sd sdst pats n fs fs'.
Proof.
  intros Hsame (b & Hb & Hc). exists b. split; [done|].
  destruct b; [by rewrite (Hsame [])|].
  destruct (lookup_path (sd ++ [n]) fs) as [[d|es]|]; [|by rewrite (Hsame [])|done].
  unfold copy2_target in *. destruct (is_dir _ fs).
  - rewrite <- app_assoc in *. simpl in *. by rewrite Hsame.
  - by rewrite (Hsame []).
Qed.

Lemma copy_loop_spec sd sdst pats names fs fs' :
  unrelated sd sdst → NoDup names →
  for_each (copy_item sdst pats) ((λ n, sd ++ [n]) <$> names) fs
    = (fs', inr tt) →
  (∀ q, (∀ n, n ∈ names → unrelated (sdst ++ [n]) q) →
        lookup_path q fs' = lookup_path q fs)
  ∧ ∀ n, n ∈ names → copied sd sdst pats n fs fs'.
Proof.
  intros Hun. revert fs. induction names as [|m names IH]; intros fs Hnd Hl.
  - rewrite fmap_nil in Hl. unfold for_each, ret in Hl. simplify_eq.
    split; [done|]. intros n Hn. by apply elem_of_nil in Hn.
  - apply NoDup_cons in Hnd as [Hm Hnd].
    rewrite fmap_cons, for_each_cons in Hl.
    apply bind_inv in Hl as [(e & _ & ?)|(fs1 & [] & Hstep & Hl)]; [done|].
    destruct (IH _ Hnd Hl) as [Hframe Hall].
    pose proof (copy_item_same_outside _ _ _ _ _ _ Hstep) as Hso.
    rewrite name_snoc in Hso.
    split.
    + intros q Hq. rewrite Hframe.
      * eapply same_outside_unrelated; [done|]. apply Hq. by left.
      * intros n Hn. apply Hq. by right.
    + intros n [->|Hn]%elem_of_cons.
      * apply (copied_end _ _ _ _ _ fs1).
        { intros r. apply Hframe. intros n Hn.
          rewrite <- (app_nil_r (sdst ++ [n])), <- !app_assoc. simpl.
          apply unrelated_siblings. intros ->. done. }
        by apply copy_item_copied.
      * apply (copied_start _ _ _ _ m _ fs1); [done| |done|by apply Hall].
        intros ->. done.
Qed.


Lemma iterdir_inv p fs items :
  iterdir p fs = inr items →
  ∃ es, lookup_path p fs = Some (Dir es)
        ∧ items = (λ n, p ++ [n]) <$> (map_to_list es).*1.
Proof.
  unfold iterdir. destruct (lookup_path p fs) as [[d|es]|]; [done| |done].
  intros [= <-]. exists es. split; [done|].
  by rewrite <- list_fmap_compose.
Qed.

Section CopyFacts.
Context `{J : Jinja2}.

Lemma copy_static_assets_unfold self pats fs :
  copy_static_assets self pats fs =
    if path_exists (static_dir self) fs then
      match mkdir_p (static_dest self) fs with
      | inl e => (fs, inl e)
      | inr fs0 =>
          match iterdir (static_dir self) fs0 with
          | inl e => (fs0, inl e)
          | inr items =>
              for_each (copy_item (static_dest self) (default [] pats))
                items fs0
          end
      end
    else (fs, inr tt).
Proof.
  unfold copy_static_assets, static_dest, bind, ask, io, try_ask, ret.
  destruct (path_exists _ fs); [|done]. simpl.
  destruct (mkdir_p _ fs) as [e|fs0]; [done|].
  by destruct (iterdir _ fs0).
Qed.

(** After a call that does not raise, every entry of the static
    directory has been dealt with. *)
Lemma copy_static_assets_copied self pats fs fs' n c :
  unrelated (static_dir self) (static_dest self) →
  copy_static_assets self pats fs = (fs', inr tt) →
  lookup_path (static_dir self ++ [n]) fs = Some c →
  copied (static_dir self) (static_dest self) (default [] pats) n fs fs'.
Proof.
  intros Hun Hc Hn. rewrite copy_static_assets_unfold in Hc.
  set (sd := static_dir self) in *. set (sdst := static_dest self) in *.
  destruct (path_exists sd fs) eqn:Hex.
  2:{ apply path_exists_false in Hex. rewrite lookup_path_app, Hex in Hn. done. }
  destruct (mkdir_p sdst fs) as [e|fs0] eqn:Hm; [done|].
  destruct (iterdir sd fs0) as [e|items] eqn:Hit; [done|].
  apply iterdir_inv in Hit as (es & Hes & ->).
  assert (∀ q, ¬ q `prefix_of` sdst →
               lookup_path q fs0 = lookup_path q fs) as Hfr
    by (intros q Hq; by eapply mkdir_p_lookup_frame).
  assert (∀ r, ¬ (sdst ++ n :: r) `prefix_of` sdst) as Hn1.
  { intros r Hp%prefix_length. rewrite length_app in Hp. simpl in Hp. lia. }
  assert (es !! n = Some c) as Hesn.
  { rewrite <- Hfr in Hn.
    - rewrite lookup_path_app, Hes in Hn. simpl in Hn.
      by destruct (es !! n).
    - intros Hp. destruct Hun as [Hun _]. apply Hun.
      etrans; [|done]. by apply prefix_app_r. }
  destruct (copy_loop_spec sd sdst (default [] pats) _ _ _ Hun
              (NoDup_fst_map_to_list es) Hc) as [_ Hall].
  assert (n ∈ (map_to_list es).*1) as Hin.
  { apply list_elem_of_fmap. exists (n, c). split; [done|].
    by apply elem_of_map_to_list. }
  destruct (Hall n Hin) as (b & Hb & Hcp). exists b. split; [done|].
  assert (lookup_path (sdst ++ [n]) fs0 = lookup_path (sdst ++ [n]) fs) as Hd
    by (apply Hfr, (Hn1 [])).
  destruct b; [by rewrite <- Hd|].
  assert (lookup_path (sd ++ [n]) fs0 = lookup_path (sd ++ [n]) fs) as Hs.
  { apply Hfr. intros Hp. destruct Hun as [Hun _]. apply Hun.
    etrans; [|done]. by apply prefix_app_r. }
  rewrite <- Hs. unfold copy2_target, is_dir in *. by rewrite <- Hd.
Qed.

End CopyFacts.

(** *** fnmatch *)

Lemma str_app_nil_l s : EmptyString +:+ s = s.
Proof. reflexivity. Qed.

Lemma str_app_cons c s t : String c s +:+ t = String c (s +:+ t).
Proof. reflexivity. Qed.

Lemma glob_match_star ts s :
  glob_match (GStar :: ts) s
  = glob_match ts s
    || match s with
       | EmptyString => false
       | String _ s' => glob_match (GStar :: ts) s'
       end.
Proof. by destruct s. Qed.

(** A star stands for any text in front of what the rest matches. *)
Lemma glob_match_star_iff ts s :
  glob_match (GStar :: ts) s = true
  ↔ ∃ pre rest, s = pre +:+ rest ∧ glob_match ts rest = true.
Proof.
  induction s as [|c s IH]; rewrite glob_match_star.
  - rewrite orb_false_r. split.
    + intros H. by exists EmptyString, EmptyString.
    + intros (pre & rest & Heq & H). destruct pre; [|done].
      rewrite str_app_nil_l in Heq. by subst.
  - rewrite orb_true_iff, IH. split.
    + intros [H|(pre & rest & -> & H)].
      * by exists EmptyString, (String c s).
      * by exists (String c pre), rest.
    + intros (pre & rest & Heq & H). destruct pre as [|c' pre].
      * left. rewrite str_app_nil_l in Heq. by subst.
      * right. rewrite str_app_cons in Heq. injection Heq as -> ->. eauto.
Qed.

Lemma glob_match_lits t s : glob_match (lits t) s = true ↔ s = t.
Proof.
  revert s. induction t as [|c t IH]; intros s; simpl.
  - destruct s; split; congruence.
  - destruct s as [|c' s]; [split; congruence|].
    rewrite andb_true_iff, IH, Ascii.eqb_eq. split.
    + by intros [-> ->].
    + by intros [= -> ->].
Qed.

Lemma fnmatchcase_css n :
  fnmatchcase n "*.css" = true ↔ ∃ pre, n = pre +:+ ".css".
Proof.
  change (fnmatchcase n "*.css") with (glob_match (GStar :: lits ".css") n).
  rewrite glob_match_star_iff. split.
  - intros (pre & rest & -> & H). apply glob_match_lits in H as ->. eauto.
  - intros (pre & ->). exists pre, ".css". split; [done|].
    by apply glob_match_lits.
Qed.

Lemma rev_snoc_cons {A} (l : list A) x : rev (l ++ [x]) = x :: rev l.
Proof. by rewrite rev_app_distr. Qed.

(** A pattern of one component is matched against the name alone. *)
Lemma any_match_css (p : path) n :
  any_match (p ++ [n]) ["*.css"] = inr (fnmatchcase n "*.css").
Proof.
  unfold any_match, path_match.
  change (segments "*.css") with ["*.css"].
  change (is_absolute "*.css") with false. cbv iota.
  rewrite length_app, Nat.add_comm. simpl (_ <? _)%nat. cbv iota.
  rewrite rev_snoc_cons. simpl rev. simpl match_parts.
  destruct (fnmatchcase n "*.css"); simpl.
  - by destruct (rev p).
  - done.
Qed.

Section CopyTheorems.
Context `{J : Jinja2}.

Lemma lookup_path_snoc_under (d : path) n r fs :
  lookup_path (d ++ n :: r) fs = lookup_path (d ++ [n]) fs ≫= lookup_path r.
Proof.
  change (d ++ n :: r) with (d ++ [n] ++ r).
  by rewrite (app_assoc d [n] r), lookup_path_app.
Qed.

End CopyTheorems.

(** *** When the copying does not raise *)

Lemma unrelated_neq (p q : path) : unrelated p q → p ≠ q.
Proof. intros [Hpq _] ->. by apply Hpq. Qed.

Lemma rmtree_ok (d : path) n fs :
  is_dir d fs = true → is_dir (d ++ [n]) fs = true →
  ∃ fs', rmtree (d ++ [n]) fs = inr fs'.
Proof.
  intros Hd [es Hes]%is_dir_lookup. unfold rmtree. rewrite Hes.
  destruct (graft_snoc_ok d n None fs Hd) as [fs' ->]. eauto.
Qed.

Lemma copytree_ok src (d : path) n es fs :
  lookup_path src fs = Some (Dir es) → is_dir d fs = true →
  path_exists (d ++ [n]) fs = false →
  ∃ fs', copytree src (d ++ [n]) fs = inr fs'.
Proof.
  intros Hs Hd Hex. unfold copytree. rewrite Hs, Hex, parent_snoc.
  rewrite (mkdir_p_id _ _ Hd).
  destruct (graft_snoc_ok d n (Some (Dir es)) fs Hd) as [fs' ->]. eauto.
Qed.

Lemma copy2_ok src dst data fs :
  lookup_path src fs = Some (File data) →
  copy2_target src dst fs ≠ src → copy2_target src dst fs ≠ [] →
  is_dir (parent (copy2_target src dst fs)) fs = true →
  is_dir (copy2_target src dst fs) fs = false →
  ∃ fs', copy2 src dst fs = inr fs'.
Proof.
  intros Hs Hne Hnil Hpar Hnd. unfold copy2. rewrite Hs.
  fold (copy2_target src dst fs). rewrite decide_False by done.
  by apply write_bytes_ok.
Qed.

Lemma copy_item_ok sd sdst pats n c b fs :
  unrelated sd sdst → is_dir sdst fs = true →
  lookup_path (sd ++ [n]) fs = Some c →
  any_match (sd ++ [n]) pats = inr b →
  (b = false → can_copy sdst n c fs) →
  ∃ fs', copy_item sdst pats (sd ++ [n]) fs = (fs', inr tt).
Proof.
  intros Hun Hd Hn Hb Hcan. rewrite copy_item_unfold, name_snoc, Hb.
  destruct b; [by exists fs|]. specialize (Hcan eq_refl).
  unfold is_dir at 1. rewrite Hn. destruct c as [data|es].
  - unfold can_copy in Hcan.
    destruct (copy2_ok (sd ++ [n]) (sdst ++ [n]) data fs) as [fs' ->];
      [done| | | | |by exists fs'].
    + unfold copy2_target. rewrite name_snoc.
      destruct (is_dir (sdst ++ [n]) fs); rewrite <- ?app_assoc;
        apply unrelated_neq, unrelated_sym, unrelated_app; done.
    + unfold copy2_target. destruct (is_dir (sdst ++ [n]) fs);
        intros Hnil; apply (f_equal length) in Hnil;
        rewrite !length_app in Hnil; simpl in Hnil; lia.
    + unfold copy2_target. destruct (is_dir (sdst ++ [n]) fs) eqn:Hdn;
        by rewrite parent_snoc.
    + unfold copy2_target. rewrite name_snoc.
      destruct (is_dir (sdst ++ [n]) fs) eqn:Hdn; [|done].
      by rewrite <- app_assoc.
  - unfold can_copy in Hcan.
    assert (∃ fs1, (if path_exists (sdst ++ [n]) fs
                    then rmtree (sdst ++ [n]) fs else inr fs) = inr fs1
                   ∧ is_dir sdst fs1 = true
                   ∧ path_exists (sdst ++ [n]) fs1 = false
                   ∧ lookup_path (sd ++ [n]) fs1 = Some (Dir es))
      as (fs1 & -> & Hd1 & Hex1 & Hn1).
    { destruct (path_exists (sdst ++ [n]) fs) eqn:Hex; [|by exists fs].
      destruct (rmtree_ok sdst n fs Hd) as [fs1 Hrm].
      { unfold is_dir, is_file, path_exists in *.
        by destruct (lookup_path (sdst ++ [n]) fs) as [[?|?]|]. }
      exists fs1. split_and!; [done| | |].
      - destruct (strict_prefix_snoc sdst n) as [Hp Hne].
        by eapply rmtree_keeps_above.
      - apply path_exists_false. by eapply rmtree_lookup.
      - rewrite <- Hn.
        eapply same_outside_unrelated; [by eapply rmtree_same_outside|].
        apply unrelated_app. by apply unrelated_sym. }
    destruct (copytree_ok (sd ++ [n]) sdst n es fs1 Hn1 Hd1 Hex1) as [fs2 ->].
    by exists fs2.
Qed.

Lemma copy_loop_ok sd sdst pats names fs :
  unrelated sd sdst → NoDup names → is_dir sdst fs = true →
  (∀ n, n ∈ names →
        ∃ c b, lookup_path (sd ++ [n]) fs = Some c
               ∧ any_match (sd ++ [n]) pats = inr b
               ∧ (b = false → can_copy sdst n c fs)) →
  ∃ fs', for_each (copy_item sdst pats) ((λ n, sd ++ [n]) <$> names) fs
         = (fs', inr tt).
Proof.
  intros Hun. revert fs.
  induction names as [|m names IH]; intros fs Hnd Hd Hall; [by exists fs|].
  apply NoDup_cons in Hnd as [Hm Hnd].
  destruct (Hall m) as (c & b & Hc & Hb & Hcan); [by left|].
  destruct (copy_item_ok sd sdst pats m c b fs Hun Hd Hc Hb Hcan)
    as [fs1 Hstep].
  pose proof (copy_item_same_outside _ _ _ _ _ _ Hstep) as Hso.
  rewrite name_snoc in Hso.
  destruct (IH fs1 Hnd) as [fs' Hl].
  - by eapply copy_item_keeps_dest.
  - intros n Hn. destruct (Hall n) as (c' & b' & Hc' & Hb' & Hcan');
      [by right|].
    assert (n ≠ m) as Hne by (intros ->; done).
    assert (∀ r, lookup_path (sdst ++ n :: r) fs1
                 = lookup_path (sdst ++ n :: r) fs) as Hdst.
    { intros r. eapply same_outside_unrelated; [done|].
      rewrite <- (app_nil_r (sdst ++ [m])), <- !app_assoc. simpl.
      apply unrelated_siblings. congruence. }
    exists c', b'. split_and!; [|done|].
    + rewrite <- Hc'. eapply same_outside_unrelated; [done|].
      apply unrelated_sym. by apply unrelated_app.
    + intros Hb0. specialize (Hcan' Hb0). unfold can_copy in *.
      destruct c'; unfold is_file, is_dir in *.
      * by rewrite (Hdst [n]).
      * by rewrite (Hdst []).
  - exists fs'. rewrite fmap_cons, for_each_cons.
    by rewrite (bind_ok _ _ _ _ _ Hstep).
Qed.

Section CopyReturns.
Context `{J : Jinja2}.

Lemma copy_static_assets_ok self pats fs :
is_dir (static_dir self) fs = true →
unrelated (static_dir self) (static_dest self) →
blocked (static_dest self) fs = false →
(∀ n c, lookup_path (static_dir self ++ [n]) fs = Some c →
        ∃ b, any_match (static_dir self ++ [n]) (default [] pats) = inr b
             ∧ (b = false → can_copy (static_dest self) n c fs)) →
∃ fs', copy_static_assets self pats fs = (fs', inr tt).
Proof.
intros Hd Hun Hb Hall. rewrite copy_static_assets_unfold.
rewrite (is_dir_exists _ _ Hd).
set (sd := static_dir self) in *. set (sdst := static_dest self) in *.
assert (∀ q, q `prefix_of` sdst → is_file q fs = false) as Hfree.
{ revert Hb. clear. revert fs. induction sdst as [|s p IH]; intros fs Hb q Hq.
  - apply prefix_nil_inv in Hq as ->. unfold is_file. simpl. by destruct fs.
  - destruct fs as [d|es]; [done|]. destruct q as [|s' q]; [done|].
    apply prefix_cons_inv_1 in Hq as Hs. apply prefix_cons_inv_2 in Hq.
    subst s'. unfold is_file. simpl in *.
    destruct (es !! s) as [c|]; [|done]. by apply (IH c). }
destruct (mkdir_p_ok _ _ Hfree) as [fs0 Hm]. rewrite Hm.
assert (∀ q, ¬ q `prefix_of` sdst →
             lookup_path q fs0 = lookup_path q fs) as Hfr
  by (intros q Hq; by eapply mkdir_p_lookup_frame).
assert (∀ r, ¬ (sd ++ r) `prefix_of` sdst) as Hsrc.
{ intros r Hp. destruct Hun as [Hun _]. apply Hun.
  etrans; [|done]. by apply prefix_app_r. }
assert (∀ r, r ≠ [] → ¬ (sdst ++ r) `prefix_of` sdst) as Hdst.
{ intros r Hr Hp%prefix_length. rewrite length_app in Hp.
  destruct r; [done|]. simpl in Hp. lia. }
destruct (iterdir sd fs0) as [e|items] eqn:Hit.
{ unfold iterdir in Hit. rewrite <- (app_nil_r sd), Hfr in Hit by apply Hsrc.
  rewrite app_nil_r in Hit. apply is_dir_lookup in Hd as [es Hes].
  by rewrite Hes in Hit. }
apply iterdir_inv in Hit as (es & Hes & ->).
apply copy_loop_ok; [done|apply NoDup_fst_map_to_list| |].
- by eapply mkdir_p_is_dir.
- intros n Hn. apply list_elem_of_fmap in Hn as ([n' c] & -> & Hin).
  apply elem_of_map_to_list in Hin. simpl.
  assert (lookup_path (sd ++ [n']) fs0 = Some c) as Hc.
  { rewrite lookup_path_app, Hes. simpl. by rewrite Hin. }
  pose proof Hc as Hc0. rewrite Hfr in Hc0 by apply Hsrc.
  destruct (Hall _ _ Hc0) as (b & Hb' & Hcan).
  exists c, b. split_and!; [done..|].
  intros Hb0. specialize (Hcan Hb0). unfold can_copy in *.
  destruct c; unfold is_file, is_dir in *;
    rewrite Hfr; try done; by apply Hdst.
Qed.
(** Nothing is in the way of copying into a destination that is not
  there. *)
Lemma can_copy_fresh sdst n c fs :
lookup_path sdst fs = None → can_copy sdst n c fs.
Proof.
intros Hn. destruct c; unfold can_copy, is_file, is_dir;
  by rewrite lookup_path_app, Hn.
Qed.

(** C2: [copy_static_assets] with the pattern ["*.css"].  On a static
  directory outside the destination, with nothing in the way of the
  destination or of the copy of an entry, the call returns, and for
  every entry [n] of the static directory: when the name of [n] ends in
  [.css] nothing at or below the destination of [n] is changed;
  otherwise a directory is copied with everything below it, style
  sheets included, and a file is copied with its bytes, to its
  destination, or, when a directory stands there, into that directory
  under its own name.  The pattern is held against the name of the
  entry alone. *)
Theorem copy_static_assets_excludes_css self fs :
is_dir (static_dir self) fs = true →
dotdot_free (static_dir self) = true →
dotdot_free (static_dest self) = true →
unrelated (static_dir self) (static_dest self) →
blocked (static_dest self) fs = false →
(∀ n c, lookup_path (static_dir self ++ [n]) fs = Some c →
        ¬ (∃ pre, n = pre +:+ ".css") →
        can_copy (static_dest self) n c fs) →
∃ fs',
  copy_static_assets self (Some ["*.css"]) fs = (fs', inr tt)
  ∧ ∀ n c,
      lookup_path (static_dir self ++ [n]) fs = Some c →
      ((∃ pre, n = pre +:+ ".css") →
         ∀ r, lookup_path (static_dest self ++ n :: r) fs'
              = lookup_path (static_dest self ++ n :: r) fs)
      ∧ (¬ (∃ pre, n = pre +:+ ".css") →
         match c with
         | Dir _ =>
             ∀ r, lookup_path (static_dest self ++ n :: r) fs'
                  = lookup_path (static_dir self ++ n :: r) fs
         | File d =>
             if is_dir (static_dest self ++ [n]) fs
             then lookup_path (static_dest self ++ [n; n]) fs'
                  = Some (File d)
             else lookup_path (static_dest self ++ [n]) fs'
                  = Some (File d)
         end).
Proof.
intros Hd _ _ Hun Hb Hcan.
destruct (copy_static_assets_ok self (Some ["*.css"]) fs Hd Hun Hb)
  as [fs' Hc].
{ intros n c Hn. exists (fnmatchcase n "*.css").
  split; [apply any_match_css|]. intros Hm. apply (Hcan n c Hn).
  intros Hcss%fnmatchcase_css. congruence. }
exists fs'. split; [done|]. intros n c Hn.
destruct (copy_static_assets_copied _ _ _ _ _ _ Hun Hc Hn)
  as (b & Hb' & Hcp).
change (default [] (Some ["*.css"])) with ["*.css"] in Hb'.
rewrite any_match_css in Hb'. injection Hb' as Hb'.
split; intros Hcss.
- apply fnmatchcase_css in Hcss. rewrite Hcss in Hb'. subst b.
  intros r. rewrite 2!(lookup_path_snoc_under _ n r). by rewrite Hcp.
- assert (b = false) as ->.
  { destruct b; [|done]. destruct Hcss. by apply fnmatchcase_css. }
  rewrite Hn in Hcp. destruct c as [d|es].
  + unfold copy2_target in Hcp.
    destruct (is_dir (static_dest self ++ [n]) fs); [|done].
    by rewrite name_snoc, <- app_assoc in Hcp.
  + intros r. rewrite 2!(lookup_path_snoc_under _ n r). by rewrite Hcp, Hn.
Qed.
End CopyReturns.

(** *** config.py *)

Lemma isupper_from_spec cased s :
  isupper_from cased s = true
  ↔ (cased = true ∨ ∃ c, c ∈ chars s ∧ is_ascii_upper c = true)
    ∧ ∀ c, c ∈ chars s → is_ascii_lower c = false.
Proof.
  revert cased. induction s as [|a s IH]; intros cased; simpl.
  - split.
    + intros ->. split; [by left|]. intros c Hc. by apply elem_of_nil in Hc.
    + intros [[?|(c & Hc & _)] _]; [done|]. by apply elem_of_nil in Hc.
  - destruct (is_ascii_lower a) eqn:Hlow.
    + split; [done|]. intros [_ Hno]. rewrite Hno in Hlow; [done|]. by left.
    + rewrite IH, orb_true_iff. split.
      * intros [[[?|Hup]|(c & Hc & Hup)] Hno].
        -- split; [by left|]. by intros c [->|?]%elem_of_cons; [|apply Hno].
        -- split; [right; exists a; split; [by left|done]|].
           by intros c [->|?]%elem_of_cons; [|apply Hno].
        -- split; [right; exists c; split; [by right|done]|].
           by intros c' [->|?]%elem_of_cons; [|apply Hno].
      * intros [Hc Hno]. split.
        -- destruct Hc as [->|(c & [->|Hc']%elem_of_cons & Hup)].
           ++ by left; left.
           ++ left; right. done.
           ++ right. eauto.
        -- intros c Hin. apply Hno. by right.
Qed.

Lemma isupper_entirely_uppercase s :
  isupper s = true ↔ entirely_uppercase s.
Proof.
  unfold isupper, entirely_uppercase. rewrite isupper_from_spec.
  split; intros [H1 H2]; (split; [|done]).
  - by destruct H1.
  - by right.
Qed.

Lemma mro_lookup_None key classes :
  (∀ ns, ns ∈ classes → ns !! key = None) → mro_lookup key classes = None.
Proof.
  induction classes as [|ns rest IH]; intros Hall; simpl; [done|].
  rewrite (Hall ns) by by left. apply IH. intros ns' Hns. apply Hall. by right.
Qed.

(** An attribute that can be read is listed by [dir]. *)
Lemma getattr_in_dir obj key :
  is_Some (getattr obj key) → key ∈ dir obj.
Proof.
  intros Hsome. unfold dir. apply elem_of_elements.
  destruct (decide (key ∈ dom (inst_dict obj) ∪ ⋃ (dom <$> mro obj)))
    as [|Hnot]; [done|].
  exfalso. apply not_elem_of_union in Hnot as [Hi Hc].
  apply not_elem_of_dom in Hi.
  unfold getattr in Hsome. rewrite Hi in Hsome.
  rewrite mro_lookup_None in Hsome; [by destruct Hsome|].
  intros ns Hns. apply not_elem_of_dom. intros Hk. apply Hc.
  apply elem_of_union_list. exists (dom ns). split; [|done].
  by apply list_elem_of_fmap_2.
Qed.

(** The dict a comprehension builds, key by key. *)
Lemma comprehension_lookup {V} (g : string → option V) (l : list string) key :
  (list_to_map (omap (λ k, (λ v, (k, v)) <$> g k) l) : gmap string V) !! key
  = if decide (key ∈ l) then g key else None.
Proof.
  induction l as [|x l IH].
  - simpl. rewrite lookup_empty.
    destruct (decide (key ∈ [])) as [Hin|]; [by apply elem_of_nil in Hin|done].
  - cbn [omap list_omap]. destruct (g x) as [v|] eqn:Hx; cbn [fmap option_fmap option_map].
    + cbn [list_to_map foldr]. destruct (decide (x = key)) as [->|Hne].
      * rewrite lookup_insert_eq. rewrite decide_True; [done|by left].
      * rewrite lookup_insert_ne; [|done]. rewrite IH.
        apply decide_ext. rewrite elem_of_cons.
        split; [by right|by intros [->|?]].
    + rewrite IH. destruct (decide (x = key)) as [->|Hne].
      * rewrite (decide_True (P := key ∈ key :: l)); [|by left].
        rewrite Hx. by destruct (decide (key ∈ l)).
      * apply decide_ext. rewrite elem_of_cons.
        split; [by right|by intros [->|?]].
Qed.

Lemma list_omap_pointwise {A B} (f g : A → option B) (l : list A) :
  (∀ x, f x = g x) → omap f l = omap g l.
Proof.
  intros Hfg. induction l as [|x l IH]; [done|].
  cbn [omap list_omap]. by rewrite Hfg, IH.
Qed.

Lemma to_dict_lookup obj key :
  Config.to_dict obj !! key
  = if isupper key && negb (startswith "_" key) then getattr obj key
    else None.
Proof.
  unfold Config.to_dict.
  set (g := λ k, if isupper k && negb (startswith "_" k)
                 then getattr obj k else None).
  transitivity ((list_to_map (omap (λ k, (λ v, (k, v)) <$> g k) (dir obj))
                 : gmap string pyval) !! key).
  - f_equal. f_equal. apply list_omap_pointwise. intros k. unfold g.
    by destruct (isupper k && negb (startswith "_" k)).
  - rewrite comprehension_lookup. fold (g key).
    case_decide as Hin; [done|]. unfold g.
    destruct (isupper key && negb (startswith "_" key)); [|done].
    destruct (getattr obj key) eqn:Hg; [|done].
    destruct Hin. apply getattr_in_dir. by rewrite Hg.
Qed.

(** C4: for a name of ASCII characters, [to_dict] maps the name to a
    value exactly when the name is an attribute of the object with that
    value, every cased character of the name is a capital and there is
    one, and the name does not begin with an underscore.  Such a name
    with a lowercase letter, or beginning with an underscore, is not a
    key. *)
Theorem to_dict_exactly_uppercase obj key :
  ascii_only key = true →
  (∀ v, Config.to_dict obj !! key = Some v
        ↔ getattr obj key = Some v
          ∧ entirely_uppercase key ∧ startswith "_" key = false)
  ∧ ((∃ c, c ∈ chars key ∧ is_ascii_lower c = true) →
     Config.to_dict obj !! key = None)
  ∧ (startswith "_" key = true → Config.to_dict obj !! key = None).
Proof.
  intros _. rewrite to_dict_lookup. split_and!.
  - intros v. rewrite <- isupper_entirely_uppercase.
    destruct (isupper key), (startswith "_" key); simpl;
      split; intros Hv; try done; try (by destruct Hv as (_ & ? & ?)).
    by destruct Hv.
  - intros (c & Hc & Hlow).
    destruct (isupper key) eqn:Hup; [|done].
    apply isupper_entirely_uppercase in Hup as [_ Hno].
    rewrite Hno in Hlow; done.
  - intros ->. by rewrite andb_false_r.
Qed.

(** C5: [require] raises exactly when the key is not in the environment;
    what it raises is a [KeyError] whose message holds the key; for a key
    that is set it returns the value; [get] with a default returns the
    default for a key that is not set. *)
Theorem require_fails_iff_absent environ key :
  (is_ok (Config.require environ key) = false ↔ environ !! key = None)
  ∧ (∀ e, Config.require environ key = inl e →
          ∃ pre post, e = KeyError (pre +:+ key +:+ post))
  ∧ (∀ v, environ !! key = Some v → Config.require environ key = inr v)
  ∧ (∀ d, environ !! key = None →
          Config.get environ key (Some d) = Some d).
Proof.
  unfold Config.require, Config.get, Config.environ_get.
  destruct (environ !! key) as [v|]; simpl; split_and!; try done.
  - intros e [= <-]. eauto.
  - intros e [= <-]. eauto.
Qed.

(** *** Strings *)

Lemma str_app_nil_r s : s +:+ EmptyString = s.
Proof. induction s as [|c s IH]; [done|]. by rewrite str_app_cons, IH. Qed.

Lemma str_app_assoc s t u : (s +:+ t) +:+ u = s +:+ (t +:+ u).
Proof. induction s as [|c s IH]; [done|]. by rewrite !str_app_cons, IH. Qed.

Lemma str_take_drop n s : str_take n s +:+ str_drop n s = s.
Proof.
  revert s. induction n as [|n IH]; intros [|c s]; simpl; try done.
  by rewrite str_app_cons, IH.
Qed.

Lemma str_take_length n s :
  String.length (str_take n s) = Nat.min n (String.length s).
Proof.
  revert s. induction n as [|n IH]; intros [|c s]; simpl; try done.
  by rewrite IH.
Qed.

Lemma str_drop_length n s :
  String.length (str_drop n s) = String.length s - n.
Proof. revert s. induction n as [|n IH]; intros [|c s]; simpl; try done. Qed.

Lemma str_length_zero s : String.length s = 0 → s = EmptyString.
Proof. by destruct s. Qed.

(** [s[:n]] is the beginning of [s], as long as asked for when [s] has
    that many characters. *)
Lemma slice_to_prefix s n : ∃ rest, s = slice_to s n +:+ rest.
Proof.
  unfold slice_to. destruct (0 <=? n)%Z; eexists; symmetry; apply str_take_drop.
Qed.

Lemma slice_to_length s n :
  String.length (slice_to s n)
  = if (0 <=? n)%Z then Nat.min (Z.to_nat n) (String.length s)
    else String.length s - Z.to_nat (- n).
Proof.
  unfold slice_to. destruct (0 <=? n)%Z; rewrite str_take_length; lia.
Qed.

(** *** utils.py *)

Section UtilsFacts.
Context `{H : HashLib}.

Lemma chunk_size_pos : 0 < chunk_size.
Proof. apply Nat.ltb_lt. by vm_compute. Qed.

Lemma read_loop_S fuel h rest :
  read_loop (S fuel) h rest =
    match str_take chunk_size rest with
    | EmptyString => h
    | chunk => read_loop fuel (hash_update h chunk) (str_drop chunk_size rest)
    end.
Proof. done. Qed.

(** With a round more than there are bytes, the loop has fed the hash
    object the whole file. *)
Lemma read_loop_all `{!HashLibLaws H} fuel h rest :
  String.length rest < fuel → read_loop fuel h rest = hash_update h rest.
Proof.
  pose proof chunk_size_pos as Hpos.
  revert h rest. induction fuel as [|fuel IH]; intros h rest Hlen; [lia|].
  rewrite read_loop_S.
  destruct (str_take chunk_size rest) as [|c chunk] eqn:Htake.
  - apply (f_equal String.length) in Htake.
    rewrite str_take_length in Htake. cbn [String.length] in Htake.
    assert (String.length rest = 0) as ->%str_length_zero by lia.
    by rewrite hash_update_empty.
  - rewrite IH.
    + rewrite hash_update_app, <- Htake. by rewrite str_take_drop.
    + rewrite str_drop_length.
      apply (f_equal String.length) in Htake.
      rewrite str_take_length in Htake. cbn [String.length] in Htake. lia.
Qed.

Lemma get_file_hash_unfold file_path algorithm fs :
  get_file_hash file_path algorithm fs =
    match hash_new algorithm with
    | inl e => (fs, inl e)
    | inr hash_func =>
        match read_bytes file_path fs with
        | inl e => (fs, inl e)
        | inr data =>
            (fs, inr (hash_hexdigest
                        (read_loop (S (String.length data)) hash_func data)))
        end
    end.
Proof.
  unfold get_file_hash, bind, lift, try_ask, ret.
  destruct (hash_new algorithm) as [e|h]; [done|].
  by destruct (read_bytes file_path fs).
Qed.

Lemma get_file_hash_short_unfold file_path length fs :
  get_file_hash_short file_path length fs =
    match get_file_hash file_path "md5" fs with
    | (fs', inl e) => (fs', inl e)
    | (fs', inr digest) => (fs', inr (slice_to digest length))
    end.
Proof.
  unfold get_file_hash_short, bind, ret.
  by destruct (get_file_hash file_path "md5" fs) as [fs' [e|digest]].
Qed.

(** The digest is the digest of the bytes of the file. *)
Lemma get_file_hash_whole `{!HashLibLaws H} file_path algorithm fs h data :
  hash_new algorithm = inr h → read_bytes file_path fs = inr data →
  get_file_hash file_path algorithm fs
  = (fs, inr (hash_hexdigest (hash_update h data))).
Proof.
  intros Hn Hd. rewrite get_file_hash_unfold, Hn, Hd.
  by rewrite read_loop_all by lia.
Qed.

Lemma get_file_hash_state file_path algorithm fs :
  (get_file_hash file_path algorithm fs).1 = fs.
Proof.
  rewrite get_file_hash_unfold.
  destruct (hash_new algorithm) as [e|h]; [reflexivity|].
  destruct (read_bytes file_path fs); reflexivity.
Qed.



End UtilsFacts.

#[export] Instance md5_laws : HashLibLaws MD5.hashlib.
Proof.
  split; simpl.
  - apply str_app_nil_r.
  - intros h a b. apply str_app_assoc.
Qed.


Lemma blocked_not_file p fs :
  blocked p fs = false → ∀ q, q `prefix_of` p → is_file q fs = false.
Proof.
  revert fs. induction p as [|s p IH]; intros fs Hb q Hq.
  - apply prefix_nil_inv in Hq as ->. unfold is_file. simpl. by destruct fs.
  - destruct fs as [d|es]; [done|]. destruct q as [|s' q]; [done|].
    apply prefix_cons_inv_1 in Hq as Hs. apply prefix_cons_inv_2 in Hq.
    subst s'. unfold is_file. simpl in *.
    destruct (es !! s) as [c|]; [|done]. by apply (IH c).
Qed.

Lemma str_or_empty t : str_or (Some EmptyString) t = str_or None t.
Proof. done. Qed.

Lemma str_or_same t : str_or (Some t) t = t.
Proof. by destruct t. Qed.

Lemma str_or_given o t : o ≠ EmptyString → str_or (Some o) t = o.
Proof. by destruct o. Qed.

(** A directory made by [mkdir_p] makes no file. *)
Lemma mkdir_p_is_file p q fs fs' :
  mkdir_p p fs = inr fs' → is_file q fs' = is_file q fs.
Proof.
  intros Hm. unfold is_file.
  destruct (mkdir_p_stat_cases p q _ _ Hm) as [Hs|(Hn & Hd & _)];
    unfold stat in *.
  - destruct (lookup_path q fs') as [[?|?]|], (lookup_path q fs) as [[?|?]|];
      simpl in *; congruence.
  - destruct (lookup_path q fs') as [[?|?]|], (lookup_path q fs) as [[?|?]|];
      simpl in *; congruence.
Qed.

Lemma mkdirs_ok (ps : list path) fs :
  (∀ p, p ∈ ps → blocked p fs = false) →
  ∃ fs', for_each (λ p, io (mkdir_p p)) ps fs = (fs', inr tt).
Proof.
  assert (∀ fs, (∀ p q, p ∈ ps → q `prefix_of` p → is_file q fs = false) →
                ∃ fs', for_each (λ p, io (mkdir_p p)) ps fs = (fs', inr tt))
    as Hgen.
  { clear fs. induction ps as [|p ps IH]; intros fs Hfree; [by exists fs|].
    destruct (mkdir_p_ok p fs) as [fs1 Hm].
    { intros q. apply Hfree. by left. }
    destruct (IH fs1) as [fs' Hl].
    { intros p' q Hp' Hq. rewrite (mkdir_p_is_file _ _ _ _ Hm).
      apply (Hfree p'); [by right|done]. }
    exists fs'. rewrite for_each_cons.
    by rewrite (bind_ok _ _ fs fs1 ()) by by apply io_ok. }
  intros Hb. apply Hgen. intros p q Hp. by apply blocked_not_file, Hb.
Qed.

Lemma mkdirs_keep (ps : list path) fs fs' r :
  for_each (λ p, io (mkdir_p p)) ps fs = (fs', r) →
  ∀ q k, stat q fs = Some k → stat q fs' = Some k.
Proof.
  intros Hl q k.
  refine (for_each_preserves (λ fs, stat q fs = Some k) _ ps _ fs fs' r Hl).
  intros p fs0 fs1 r0 Hio Hk.
  apply io_inv in Hio as [(e & _ & -> & _)|[Hm _]]; [done|].
  by eapply mkdir_p_stat_preserved.
Qed.

Section BuilderTheorems.
Context `{J : Jinja2} `{L : Locale}.


(** C1: [render_template] writes the rendered text, in the encoding of the
  locale, to the build directory joined with the output name, the
  template name standing for an output name that is omitted or empty;
  it makes the missing directories above that path, returns the text it
  wrote, and changes no other entry.  This is so whenever the template
  can be loaded and rendered and the text encoded, the output path has
  no component [..], no component above it is a file and it is not a
  directory. *)
Theorem render_template_writes self tpl ctx out fs T html bytes :
get_template (env self) tpl fs = inr T →
render T (default ∅ ctx) = inr html →
encode html = inr bytes →
dotdot_free (output_path self tpl out) = true →
blocked (parent (output_path self tpl out)) fs = false →
is_dir (output_path self tpl out) fs = false →
output_path self tpl None = joinpath (build_dir self) tpl
∧ (∀ o, o ≠ EmptyString →
        output_path self tpl (Some o) = joinpath (build_dir self) o)
∧ ∃ fs',
    render_template self tpl ctx out fs = (fs', inr html)
    ∧ lookup_path (output_path self tpl out) fs' = Some (File bytes)
    ∧ is_dir (parent (output_path self tpl out)) fs' = true
    ∧ ∀ q, q ≠ output_path self tpl out →
           stat q fs' = stat q fs
           ∨ (stat q fs = None ∧ stat q fs' = Some KDir
              ∧ q `prefix_of` parent (output_path self tpl out)).
Proof.
intros HT Hr He _ Hb Hnd. split; [done|]. split.
- intros o Ho. unfold output_path. by rewrite str_or_given.
- apply (render_template_spec self tpl ctx out fs T html bytes); try done.
  by apply blocked_not_file.
Qed.

Lemma render_template_same_name self tpl ctx fs :
render_template self tpl ctx (Some tpl) fs
= render_template self tpl ctx None fs.
Proof.
rewrite !render_template_unfold. unfold output_path.
by rewrite str_or_same.
Qed.

(** C9: an empty output name is an omitted one.  Whenever the template
  can be loaded and rendered and the text encoded, and nothing is in the
  way of the build directory joined with the template name (which has
  no component [..]), [render_template] with the empty string for output
  name returns the text and writes it under the template name, as it
  does with no output name; and [render_pages] does for the pair of the
  template and the empty string what it does for the template name
  alone. *)
Theorem render_template_empty_output_name self tpl ctx fs T html bytes :
get_template (env self) tpl fs = inr T →
render T (default ∅ ctx) = inr html →
encode html = inr bytes →
dotdot_free (joinpath (build_dir self) tpl) = true →
blocked (parent (joinpath (build_dir self) tpl)) fs = false →
is_dir (joinpath (build_dir self) tpl) fs = false →
∃ fs',
  render_template self tpl ctx (Some EmptyString) fs = (fs', inr html)
  ∧ render_template self tpl ctx None fs = (fs', inr html)
  ∧ render_pages self [PagePair tpl EmptyString] ctx fs = (fs', inr tt)
  ∧ render_pages self [PageName tpl] ctx fs = (fs', inr tt)
  ∧ lookup_path (joinpath (build_dir self) tpl) fs' = Some (File bytes).
Proof.
intros HT Hr He _ Hb Hnd.
destruct (render_template_spec self tpl ctx (Some EmptyString) fs T html
            bytes HT Hr He) as (fs' & Hcall & Hfile & _);
  [by apply blocked_not_file|done|].
assert (render_template self tpl (Some (default ∅ ctx)) (Some EmptyString) fs
        = (fs', inr html)) as Hcall' by exact Hcall.
exists fs'. split_and!; [done|done| | |done].
- rewrite render_pages_cons. unfold render_page. cbn [page_names fst snd].
  by rewrite (bind_ok _ _ _ _ _ Hcall').
- rewrite render_pages_cons. unfold render_page. cbn [page_names fst snd].
  rewrite (bind_ok _ _ fs fs' html); [done|].
  by rewrite render_template_same_name.
Qed.
End BuilderTheorems.

Section CopyDest.
Context `{J : Jinja2}.

End CopyDest.

(** ** The theorems at the project of the test suite *)

Lemma render_template_writes_witness :
  ∃ fs',
    render_template (L := UTF8.locale) Fixture.builder "index.html"
      (Some Fixture.context) (Some "home.html") Fixture.temp_project
    = (fs', inr (text_of_string "<h1>Hello World</h1>"))
    ∧ lookup_path (Fixture.base ++ ["build"; "home.html"]) fs'
      = Some (File "<h1>Hello World</h1>").
Proof.
  destruct (render_template_writes (L := UTF8.locale) Fixture.builder
              "index.html" (Some Fixture.context) (Some "home.html")
              Fixture.temp_project "<h1>{{ title }}</h1>"
              (text_of_string "<h1>Hello World</h1>") "<h1>Hello World</h1>")
    as (_ & _ & fs' & Hcall & Hfile & _); [vm_compute; reflexivity..|].
  exists fs'. split; [exact Hcall|exact Hfile].
Defined.

(** An output name that is given, and empty: the text is written under the
    template name, and the build directory joined with the output name is
    the build directory, which holds no text. *)
Lemma render_template_empty_name_writes_template_path :
  (render_template (L := UTF8.locale) Fixture.builder "index.html"
     (Some Fixture.context) (Some EmptyString) Fixture.temp_project).2
  = inr (text_of_string "<h1>Hello World</h1>")
  ∧ lookup_path (joinpath (build_dir Fixture.builder) "index.html")
      (render_template (L := UTF8.locale) Fixture.builder "index.html"
         (Some Fixture.context) (Some EmptyString) Fixture.temp_project).1
    = Some (File "<h1>Hello World</h1>")
  ∧ is_dir (joinpath (build_dir Fixture.builder) EmptyString)
      (render_template (L := UTF8.locale) Fixture.builder "index.html"
         (Some Fixture.context) (Some EmptyString) Fixture.temp_project).1
    = true.
Proof. vm_compute. by split_and!. Qed.

Lemma render_template_empty_output_name_witness :
  ∃ fs',
    render_template (L := UTF8.locale) Fixture.builder "index.html"
      (Some Fixture.context) (Some EmptyString) Fixture.temp_project
    = (fs', inr (text_of_string "<h1>Hello World</h1>"))
    ∧ lookup_path (Fixture.base ++ ["build"; "index.html"]) fs'
      = Some (File "<h1>Hello World</h1>").
Proof.
  destruct (render_template_empty_output_name (L := UTF8.locale)
              Fixture.builder "index.html" (Some Fixture.context)
              Fixture.temp_project "<h1>{{ title }}</h1>"
              (text_of_string "<h1>Hello World</h1>") "<h1>Hello World</h1>")
    as (fs' & Hcall & _ & _ & _ & Hfile); [vm_compute; reflexivity..|].
  exists fs'. split; [exact Hcall|exact Hfile].
Defined.

(** The style sheet is left out; the other file and the directory of
    style sheets are copied. *)
Lemma copy_static_assets_excludes_css_witness :
  ∃ fs',
    copy_static_assets Fixture.builder (Some ["*.css"]) Fixture.assets_project
    = (fs', inr tt)
    ∧ lookup_path (static_dest Fixture.builder ++ ["style.css"]) fs' = None
    ∧ lookup_path (static_dest Fixture.builder ++ ["robots.txt"]) fs'
      = Some (File "User-agent: *")
    ∧ lookup_path (static_dest Fixture.builder ++ ["css"; "main.css"]) fs'
      = Some (File ".main { display: block; }").
Proof.
  destruct (copy_static_assets_excludes_css Fixture.builder
              Fixture.assets_project) as (fs' & Hcall & Hall).
  - vm_compute. reflexivity.
  - vm_compute. reflexivity.
  - vm_compute. reflexivity.
  - apply (bool_decide_unpack _). vm_compute. exact I.
  - vm_compute. reflexivity.
  - intros n c _ _. apply can_copy_fresh. vm_compute. reflexivity.
  - exists fs'. split; [exact Hcall|]. split_and!.
    + destruct (Hall "style.css" (File "body { color: black; }"))
        as [Hcss _]; [vm_compute; reflexivity|].
      rewrite (Hcss (ex_intro _ "style" eq_refl) []).
      vm_compute. reflexivity.
    + destruct (Hall "robots.txt" (File "User-agent: *"))
        as [_ Hcopy]; [vm_compute; reflexivity|].
      apply Hcopy. intros Hcss%fnmatchcase_css.
      vm_compute in Hcss. discriminate.
    + destruct (Hall "css"
                  (Dir (<["main.css" := File ".main { display: block; }"]> ∅)))
        as [_ Hcopy]; [vm_compute; reflexivity|].
      rewrite Hcopy; [vm_compute; reflexivity|].
      intros Hcss%fnmatchcase_css. vm_compute in Hcss. discriminate.
Defined.

(** A file of the static directory whose destination is a directory: the
    call returns, the destination is still that directory, and the copy
    is inside it. *)
Lemma copy_static_assets_file_into_directory :
  (copy_static_assets Fixture.builder (Some ["*.css"])
     Fixture.shadowed_project).2 = inr tt
  ∧ lookup_path (static_dir Fixture.builder ++ ["robots.txt"])
      Fixture.shadowed_project
    = Some (File "User-agent: *")
  ∧ is_dir (static_dest Fixture.builder ++ ["robots.txt"])
      (copy_static_assets Fixture.builder (Some ["*.css"])
         Fixture.shadowed_project).1
    = true
  ∧ lookup_path (static_dest Fixture.builder ++ ["robots.txt"; "robots.txt"])
      (copy_static_assets Fixture.builder (Some ["*.css"])
         Fixture.shadowed_project).1
    = Some (File "User-agent: *").
Proof. vm_compute. by split_and!. Qed.



Lemma to_dict_exactly_uppercase_witness :
  Config.to_dict Fixture.config !! "SITE_NAME" = Some (PyStr "Test")
  ∧ Config.to_dict Fixture.config !! "lowercase" = None.
Proof.
  split.
  - apply (proj1 (to_dict_exactly_uppercase Fixture.config "SITE_NAME"
                    eq_refl)).
    split; [vm_compute; reflexivity|]. split; [|reflexivity].
    apply isupper_entirely_uppercase. vm_compute. reflexivity.
  - apply (proj1 (proj2 (to_dict_exactly_uppercase Fixture.config "lowercase"
                           eq_refl))).
    exists "l"%char. split; [by left|reflexivity].
Defined.





(** ** Further properties of builder.py *)

(** *** mkdir_p, once more *)

Lemma blocked_is_file p fs :
  blocked p fs = true → ∃ q, q `prefix_of` p ∧ is_file q fs = true.
Proof.
  revert fs. induction p as [|s p IH]; intros fs Hb.
  - exists []. split; [done|]. by destruct fs.
  - destruct fs as [d|es]; [by exists []; split; [apply prefix_nil|]|].
    simpl in Hb. destruct (es !! s) as [c|] eqn:Hs; [|done].
    destruct (IH c Hb) as (q & Hq & Hf). exists (s :: q).
    split; [by apply prefix_cons|]. unfold is_file in *. simpl. by rewrite Hs.
Qed.

Lemma mkdir_p_blocked p fs :
  blocked p fs = true →
  mkdir_p p fs = inl FileExistsError ∨ mkdir_p p fs = inl NotADirectoryError.
Proof.
  revert fs. induction p as [|s p IH]; intros fs Hb.
  - destruct fs; [by left|done].
  - destruct fs as [d|es]; [by right|]. rewrite mkdir_p_cons_dir.
    simpl in Hb. destruct (es !! s) as [c|]; [|done]. simpl.
    destruct (IH c Hb) as [-> | ->]; [by left|by right].
Qed.

Lemma mkdir_p_not_blocked p fs fs' : mkdir_p p fs = inr fs' → blocked p fs = false.
Proof.
  intros Hm. destruct (blocked p fs) eqn:Hb; [|done].
  destruct (mkdir_p_blocked _ _ Hb); congruence.
Qed.


Lemma mkdirs_stat_cases (ps : list path) fs fs' r :
  for_each (λ p, io (mkdir_p p)) ps fs = (fs', r) →
  ∀ q, stat q fs' = stat q fs
       ∨ (stat q fs = None ∧ stat q fs' = Some KDir
          ∧ ∃ p, p ∈ ps ∧ q `prefix_of` p).
Proof.
  revert fs. induction ps as [|p ps IH]; intros fs Hl q.
  - unfold for_each, ret in Hl. simplify_eq. by left.
  - rewrite for_each_cons in Hl.
    apply bind_inv in Hl as [(e & Hp & ->)|(fs1 & [] & Hp & Hl)].
    + apply io_inv in Hp as [(e' & _ & -> & _)|[_ ?]]; [by left|done].
    + apply io_inv in Hp as [(e' & _ & _ & ?)|[Hm _]]; [done|].
      destruct (IH _ Hl q) as [Hs|(Hn & Hd & p' & Hp' & Hq)];
        destruct (mkdir_p_stat_cases p q _ _ Hm) as [Hs1|(Hn1 & Hd1 & Hq1)].
      * left. congruence.
      * right. split_and!; [done|congruence|]. exists p. split; [by left|done].
      * right. split_and!; [congruence|done|]. exists p'. split; [by right|done].
      * congruence.
Qed.

Lemma mkdirs_ok_inv (ps : list path) fs fs' :
  for_each (λ p, io (mkdir_p p)) ps fs = (fs', inr tt) →
  ∀ p, p ∈ ps → blocked p fs = false.
Proof.
  intros Hl p Hp. destruct (blocked p fs) eqn:Hb; [|done].
  destruct (blocked_is_file _ _ Hb) as (q & Hq & Hf).
  destruct (mkdirs_spec _ _ _ _ Hl) as (_ & _ & Hall).
  specialize (Hall eq_refl p Hp).
  assert (is_dir q fs' = true) as Hd.
  { destruct (decide (q = p)) as [->|Hne]; [done|].
    apply (lookup_path_below_dir p); [done| |done].
    apply is_dir_lookup in Hall as [es ->]. by eexists. }
  apply is_file_lookup in Hf as [d Hf].
  assert (stat q fs = Some (KFile d)) as Hk by (unfold stat; by rewrite Hf).
  apply (mkdirs_keep _ _ _ _ Hl) in Hk. apply is_dir_stat in Hd. congruence.
Qed.

Section BuilderProperties.
Context `{J : Jinja2}.

Lemma clean_unfold self fs :
clean self fs =
  if path_exists (build_dir self) fs then io (rmtree (build_dir self)) fs
  else (fs, inr tt).
Proof. unfold clean, bind, ask, ret. by destruct (path_exists _ fs). Qed.

(** X1: [clean] on a build directory that is there (and is not the root
  of the file system) does not raise; afterwards nothing is at the build
  directory or below it, every directory above it is still a directory,
  and every path that is neither below nor above it holds what it
  held. *)
Theorem clean_removes_build_dir self fs :
build_dir self ≠ [] →
is_dir (build_dir self) fs = true →
∃ fs',
  clean self fs = (fs', inr tt)
  ∧ (∀ r, lookup_path (build_dir self ++ r) fs' = None)
  ∧ (∀ q, q `prefix_of` build_dir self → q ≠ build_dir self →
          is_dir q fs' = true)
  ∧ same_outside (build_dir self) fs fs'.
Proof.
intros Hne Hd. set (bd := build_dir self) in *.
assert (∃ fs', rmtree bd fs = inr fs') as [fs' Hrm].
{ unfold rmtree. pose proof Hd as [es Hes]%is_dir_lookup. rewrite Hes.
  destruct (path_snoc_inv bd) as [?|(q & s & Hq)]; [done|].
  destruct (graft_snoc_ok q s None fs) as [fs' Hg].
  - apply (lookup_path_below_dir bd); [by rewrite Hq; apply prefix_app_r| |].
    + rewrite Hes. by eexists.
    + rewrite Hq. intros Heq. apply (f_equal length) in Heq.
      rewrite length_app in Heq. simpl in Heq. lia.
  - rewrite Hq, Hg. eauto. }
exists fs'. pose proof Hrm as [Hg _]%rmtree_inv. split_and!.
- rewrite clean_unfold. fold bd. rewrite (is_dir_exists _ _ Hd).
  by apply io_ok.
- intros r. by rewrite (graft_lookup_under _ _ _ _ _ Hg).
- intros q Hq Hqne. by destruct (graft_above _ _ _ _ _ Hg Hq Hqne).
- by apply rmtree_same_outside.
Qed.




(** X4: for directories without a component [..], [ensure_build_dirs]
  does not raise exactly when no component of a directory it is to make
  is a file; when a component of the build directory itself is a file it
  raises [FileExistsError] or [NotADirectoryError] and makes nothing. *)
Theorem ensure_build_dirs_ok_iff self subdirs fs fs1 r1 :
(∀ p, p ∈ build_dirs self subdirs → dotdot_free p = true) →
ensure_build_dirs self subdirs fs = (fs1, r1) →
(r1 = inr tt ↔ ∀ p, p ∈ build_dirs self subdirs → blocked p fs = false)
∧ (blocked (build_dir self) fs = true →
   fs1 = fs ∧ (r1 = inl FileExistsError ∨ r1 = inl NotADirectoryError)).
Proof.
intros _. rewrite ensure_build_dirs_unfold. intros Hl. split; [split|].
- intros ->. by apply (mkdirs_ok_inv _ _ _ Hl).
- intros Hb. destruct (mkdirs_ok _ _ Hb) as [fs' Hok]. congruence.
- intros Hb. unfold build_dirs in Hl. rewrite for_each_cons in Hl.
  destruct (mkdir_p_blocked _ _ Hb) as [Hm|Hm];
    rewrite (bind_err _ _ fs fs _ (io_err _ _ _ Hm)) in Hl;
    simplify_eq; eauto.
Qed.

(** X5: all [ensure_build_dirs] ever does is make directories on the way
  to the ones it is asked for.  For directories without a component
  [..], however the call ends, a path holds what it held, or held
  nothing and is now a directory that is the build directory, a listed
  subdirectory, or above one of them. *)
Theorem ensure_build_dirs_only_makes_dirs self subdirs fs fs1 r1 q :
(∀ p, p ∈ build_dirs self subdirs → dotdot_free p = true) →
ensure_build_dirs self subdirs fs = (fs1, r1) →
stat q fs1 = stat q fs
∨ (stat q fs = None ∧ stat q fs1 = Some KDir
   ∧ ∃ p, p ∈ build_dirs self subdirs ∧ q `prefix_of` p).
Proof.
intros _. rewrite ensure_build_dirs_unfold. intros Hl.
by apply (mkdirs_stat_cases _ _ _ _ Hl).
Qed.
End BuilderProperties.

(** *** Exclusion by name *)





Section CopyProperties.
Context `{J : Jinja2}.





End CopyProperties.

Lemma write_bytes_is_file p q data fs fs' :
  write_bytes p data fs = inr fs' → is_file q fs = true → is_file q fs' = true.
Proof.
  intros Hw Hq. destruct (decide (q = p)) as [->|Hne].
  - unfold is_file. by rewrite (write_bytes_lookup _ _ _ _ Hw).
  - pose proof (write_bytes_frame _ _ _ _ _ Hw Hne) as Hs.
    unfold is_file, stat in *.
    destruct (lookup_path q fs') as [[?|?]|], (lookup_path q fs) as [[?|?]|];
      simpl in *; congruence.
Qed.

Section RenderProperties.
Context `{J : Jinja2} `{L : Locale}.

(** X10: what a call of [render_template] that raises has done.  For an
  output path without a component [..]: every other path holds what it
  held, or held nothing and is now a directory above the output path;
  the output path holds what it held, or, when the template was loaded
  and rendered and the text could not be encoded, an empty file, the
  exception being that of the encoding.  When the template can not be
  loaded, or can not be rendered, nothing at all is changed and the
  exception is the engine's. *)
Theorem render_template_raises self tpl ctx out fs fs' e :
dotdot_free (output_path self tpl out) = true →
render_template self tpl ctx out fs = (fs', inl e) →
(∀ q, q ≠ output_path self tpl out →
      stat q fs' = stat q fs
      ∨ (stat q fs = None ∧ stat q fs' = Some KDir
         ∧ q `prefix_of` parent (output_path self tpl out)))
∧ (stat (output_path self tpl out) fs' = stat (output_path self tpl out) fs
   ∨ (stat (output_path self tpl out) fs' = Some (KFile EmptyString)
      ∧ ∃ T html, get_template (env self) tpl fs = inr T
                  ∧ render T (default ∅ ctx) = inr html
                  ∧ encode html = inl e))
∧ (∀ e', get_template (env self) tpl fs = inl e' → fs' = fs ∧ e = e')
∧ (∀ T e', get_template (env self) tpl fs = inr T →
           render T (default ∅ ctx) = inl e' → fs' = fs ∧ e = e').
Proof.
intros _ Hc. split_and!.
- intros q Hq.
  apply render_template_inv_err in Hc
    as [->|(T & html & fs1 & _ & _ & Hm & Hw)]; [by left|].
  destruct Hw as [->|[_ Hw]]; [by eapply mkdir_p_stat_cases|].
  rewrite (write_bytes_frame _ _ _ _ _ Hw Hq). by eapply mkdir_p_stat_cases.
- by eapply render_template_err_output.
- intros e' He. rewrite render_template_unfold, He in Hc. by simplify_eq.
- intros T e' HT He. rewrite render_template_unfold, HT, He in Hc.
  by simplify_eq.
Qed.

Lemma render_page_is_file self ctx pg fs fs' html :
render_page self ctx pg fs = (fs', inr html) →
is_file (output_path self (page_names pg).1 (Some (page_names pg).2)) fs'
= true
∧ ∀ q, is_file q fs = true → is_file q fs' = true.
Proof.
unfold render_page.
intros (T & fs1 & bytes & _ & _ & Hm & _ & Hw)%render_template_inv_ok.
split.
- unfold is_file. by rewrite (write_bytes_lookup _ _ _ _ Hw).
- intros q Hq. apply (write_bytes_is_file _ _ _ _ _ Hw).
  by rewrite (mkdir_p_is_file _ _ _ _ Hm).
Qed.

(** X12: after [render_pages] has returned, the output of every page is
  there: at the output path of each page is a file, and every file that
  was there before the call is still a file.  The output path of a page
  is the build directory joined with its output name, or with its
  template name when the output name is empty. *)
Theorem render_pages_all_written self pages ctx fs fs' :
render_pages self pages ctx fs = (fs', inr tt) →
(∀ pg, pg ∈ pages →
       is_file (output_path self (page_names pg).1
                  (Some (page_names pg).2)) fs' = true)
∧ (∀ q, is_file q fs = true → is_file q fs' = true).
Proof.
revert fs. induction pages as [|pg pages IH]; intros fs Hr.
- unfold render_pages, for_each, ret in Hr. simplify_eq.
  split; [|done]. intros pg Hpg. by apply elem_of_nil in Hpg.
- rewrite render_pages_cons in Hr.
  apply bind_inv in Hr as [(e & _ & ?)|(fs1 & html & Hpg & Hr)]; [done|].
  destruct (IH _ Hr) as [Hall Hkeep].
  destruct (render_page_is_file _ _ _ _ _ _ Hpg) as [Hout Hkeep1].
  split.
  + intros pg' [->|Hin]%elem_of_cons; [|by apply Hall].
    by apply Hkeep.
  + intros q Hq. by apply Hkeep, Hkeep1.
Qed.
End RenderProperties.

(** ** Further properties of config.py *)

Lemma getattr_cons inst ns classes key :
  getattr {| inst_dict := inst; mro := ns :: classes |} key
  = match inst !! key with
    | Some v => Some v
    | None =>
        match ns !! key with
        | Some v => Some v
        | None => getattr {| inst_dict := inst; mro := classes |} key
        end
    end.
Proof. unfold getattr. simpl. by destruct (inst !! key). Qed.

(** X13: what a subclass adds to [to_dict].  With the namespace [ns] of a
    subclass put in front of the classes of an object: a name that [ns]
    does not define is mapped as before; a name of ASCII characters that
    [ns] defines, that the instance itself does not, and that passes the
    test on names is mapped to the value [ns] gives it, whatever the base
    classes say; and no key is lost. *)
Theorem to_dict_subclass inst ns classes key :
  (ns !! key = None →
   Config.to_dict {| inst_dict := inst; mro := ns :: classes |} !! key
   = Config.to_dict {| inst_dict := inst; mro := classes |} !! key)
  ∧ (∀ v, ascii_only key = true →
          ns !! key = Some v → inst !! key = None →
          isupper key = true → startswith "_" key = false →
          Config.to_dict {| inst_dict := inst; mro := ns :: classes |} !! key
          = Some v)
  ∧ (is_Some (Config.to_dict {| inst_dict := inst; mro := classes |} !! key) →
     is_Some (Config.to_dict {| inst_dict := inst; mro := ns :: classes |}
                !! key)).
Proof.
  rewrite !to_dict_lookup, getattr_cons. split_and!.
  - intros ->. unfold getattr. simpl. by destruct (inst !! key).
  - intros v _ -> -> -> ->. done.
  - destruct (isupper key && negb (startswith "_" key)); [|done].
    unfold getattr. simpl.
    destruct (inst !! key); [done|]. by destruct (ns !! key).
Qed.

Lemma environ_value_default environ key d :
  Skeleton.environ_value environ key d = PyStr (default d (environ !! key)).
Proof.
  unfold Skeleton.environ_value, Config.environ_get.
  by destruct (environ !! key).
Qed.

(** X14: the context of the project skeleton.  When the base classes
    contribute no key, [to_dict] of the skeleton's configuration has
    exactly the keys [SITE_NAME], [SITE_URL] and [SITE_DESCRIPTION], each
    with the value of the environment variable of that name, or with its
    default when the variable is not set. *)
Theorem skeleton_config_to_dict environ inherited :
  Config.to_dict {| inst_dict := ∅; mro := inherited |} = ∅ →
  Config.to_dict (Skeleton.config environ inherited)
  = <["SITE_NAME" := PyStr (default "My Site" (environ !! "SITE_NAME"))]>
    (<["SITE_URL" :=
       PyStr (default "https://example.com" (environ !! "SITE_URL"))]>
     (<["SITE_DESCRIPTION" :=
        PyStr (default "A static site built with hardboiled"
                 (environ !! "SITE_DESCRIPTION"))]> ∅)).
Proof.
  intros Hbase. apply map_eq. intros key.
  apply (f_equal (.!! key)) in Hbase.
  rewrite to_dict_lookup, lookup_empty in Hbase.
  unfold Skeleton.config. rewrite to_dict_lookup, getattr_cons, lookup_empty.
  unfold Skeleton.Config_namespace. rewrite !environ_value_default.
  destruct (decide (key = "SITE_NAME")) as [->|H1].
  { by rewrite !lookup_insert_eq. }
  destruct (decide (key = "SITE_URL")) as [->|H2].
  { rewrite !(lookup_insert_ne _ "SITE_NAME") by done.
    by rewrite !lookup_insert_eq. }
  destruct (decide (key = "SITE_DESCRIPTION")) as [->|H3].
  { rewrite !(lookup_insert_ne _ "SITE_NAME") by done.
    rewrite !(lookup_insert_ne _ "SITE_URL") by done.
    by rewrite !lookup_insert_eq. }
  rewrite !(lookup_insert_ne _ "SITE_NAME") by done.
  rewrite !(lookup_insert_ne _ "SITE_URL") by done.
  rewrite !(lookup_insert_ne _ "SITE_DESCRIPTION") by done.
  rewrite lookup_empty.
  destruct (decide (key = "__module__")) as [->|H4].
  { by rewrite lookup_insert_eq. }
  destruct (decide (key = "__doc__")) as [->|H5].
  { rewrite lookup_insert_ne by done. by rewrite lookup_insert_eq. }
  rewrite !lookup_insert_ne by done. by rewrite lookup_empty.
Qed.

Lemma skeleton_config_to_dict_witness :
  Config.to_dict
    (Skeleton.config (<["SITE_NAME" := "Hardboiled"]> ∅)
       [Fixture.Config_namespace; Fixture.object_namespace])
    !! "SITE_NAME" = Some (PyStr "Hardboiled")
  ∧ Config.to_dict
      (Skeleton.config (<["SITE_NAME" := "Hardboiled"]> ∅)
         [Fixture.Config_namespace; Fixture.object_namespace])
      !! "SITE_URL" = Some (PyStr "https://example.com").
Proof.
  rewrite (skeleton_config_to_dict (<["SITE_NAME" := "Hardboiled"]> ∅)
             [Fixture.Config_namespace; Fixture.object_namespace]).
  - split; vm_compute; reflexivity.
  - vm_compute. reflexivity.
Defined.

(** ** Further properties of utils.py *)

Lemma str_take_take a b s : a ≤ b → str_take a (str_take b s) = str_take a s.
Proof.
  revert b s. induction a as [|a IH]; intros [|b] [|c s] Hab; simpl;
    try done; try lia.
  rewrite IH; [done|lia].
Qed.

Lemma chars_app s t : chars (s +:+ t) = chars s ++ chars t.
Proof.
  unfold chars. induction s as [|c s IH]; [done|].
  rewrite str_app_cons. simpl. by rewrite IH.
Qed.

Lemma chars_of_list l : chars (String.string_of_list_ascii l) = l.
Proof. apply String.list_ascii_of_string_of_list_ascii. Qed.

Lemma length_chars s : length (chars s) = String.length s.
Proof. unfold chars. induction s as [|c s IH]; simpl; [done|by rewrite IH]. Qed.

(** *** The digest of MD5 in hexadecimal *)

Lemma hex_digit_in x : MD5.hex_digit x ∈ chars "0123456789abcdef".
Proof.
  unfold MD5.hex_digit. fold (chars "0123456789abcdef").
  destruct (decide (Z.to_nat x < length (chars "0123456789abcdef"))) as [Hlt|Hge].
  - apply list_elem_of_In, nth_In, Hlt.
  - rewrite nth_overflow by lia. by left.
Qed.

Lemma hex_bytes_in bs c :
  c ∈ concat (MD5.hex_byte <$> bs) → c ∈ chars "0123456789abcdef".
Proof.
  induction bs as [|b bs IH]; simpl; [by intros ?%elem_of_nil|].
  intros [->|[->|Hc]%elem_of_cons]%elem_of_cons; [apply hex_digit_in..|].
  by apply IH.
Qed.

Lemma hexdigest_chars msg c :
  c ∈ chars (MD5.hexdigest msg) → c ∈ chars "0123456789abcdef".
Proof.
  unfold MD5.hexdigest.
  destruct (MD5.process _ _ _) as [[[a b] c0] d].
  rewrite chars_of_list. apply hex_bytes_in.
Qed.

Lemma hexdigest_length msg : String.length (MD5.hexdigest msg) = 32.
Proof.
  rewrite <- length_chars. unfold MD5.hexdigest.
  destruct (MD5.process _ _ _) as [[[a b] c0] d].
  rewrite chars_of_list. reflexivity.
Qed.

(** *** The error for a path that is not there *)

Lemma ancestor_error_not_blocked p fs :
  blocked p fs = false → ancestor_error p fs = FileNotFoundError.
Proof.
  revert fs. induction p as [|s p IH]; intros [d|es] Hb; try done.
  simpl in *. destruct (es !! s) as [c|]; [by apply IH|done].
Qed.

Lemma ancestor_error_file_above q r fs :
  is_file q fs = true →
  ancestor_error (q ++ r) fs = NotADirectoryError
  ∧ (r ≠ [] → lookup_path (q ++ r) fs = None).
Proof.
  unfold is_file. revert fs. induction q as [|s q IH]; intros fs Hf.
  - destruct fs as [d|es]; [|done]. split; [by destruct r|].
    intros Hr. by destruct r.
  - destruct fs as [d|es]; [done|]. simpl in *.
    destruct (es !! s) as [c|]; [by apply IH|done].
Qed.

Section UtilsProperties.
Context `{H : HashLib}.

(** X15: the digest does not depend on the reading in pieces.  For a hash
  object that takes bytes in pieces as it takes them at once,
  [get_file_hash] returns the digest of the bytes of the file, whatever
  their number, and leaves the file system as it is. *)
Theorem get_file_hash_chunking `{!HashLibLaws H} file_path algorithm fs h data :
hash_new algorithm = inr h →
read_bytes file_path fs = inr data →
get_file_hash file_path algorithm fs
= (fs, inr (hash_hexdigest (hash_update h data))).
Proof. apply get_file_hash_whole. Qed.

(** X16: what [get_file_hash] raises.  The hash object is made before
  the file is opened: an algorithm that [hashlib] refuses gives the
  exception of [hashlib], whether the file is there or not.  With the
  algorithm accepted: a path one of whose proper ancestors is a file
  gives [NotADirectoryError]; a path without a component [..] that does
  not exist, and no component of which is a file, gives
  [FileNotFoundError]; a directory gives [IsADirectoryError].  The file
  system is never changed. *)
Theorem get_file_hash_errors file_path algorithm fs :
(get_file_hash file_path algorithm fs).1 = fs
∧ (∀ e, hash_new algorithm = inl e →
        (get_file_hash file_path algorithm fs).2 = inl e)
∧ (∀ h, hash_new algorithm = inr h →
        (∀ q, q `prefix_of` file_path → q ≠ file_path →
              is_file q fs = true →
              (get_file_hash file_path algorithm fs).2
              = inl NotADirectoryError)
        ∧ (dotdot_free file_path = true →
           lookup_path file_path fs = None →
           blocked file_path fs = false →
           (get_file_hash file_path algorithm fs).2
           = inl FileNotFoundError)
        ∧ (is_dir file_path fs = true →
           (get_file_hash file_path algorithm fs).2
           = inl IsADirectoryError)).
Proof.
split; [apply get_file_hash_state|]. rewrite get_file_hash_unfold. split.
- by intros e ->.
- intros h ->. unfold read_bytes. split_and!.
  + intros q [r ->] Hne Hf.
    assert (r ≠ []) as Hr by (intros ->; by rewrite app_nil_r in Hne).
    destruct (ancestor_error_file_above q r fs Hf) as [-> Hnone].
    by rewrite (Hnone Hr).
  + intros _ -> Hb. by rewrite (ancestor_error_not_blocked _ _ Hb).
  + intros [es ->]%is_dir_lookup. done.
Qed.

(** X17: shorter short forms begin longer ones.  For lengths
  [0 <= n <= m], the short hash of length [n] is the beginning of the
  short hash of length [m] of the same file. *)
Theorem get_file_hash_short_prefix file_path n m fs short_n short_m :
(0 ≤ n ≤ m)%Z →
(get_file_hash_short file_path n fs).2 = inr short_n →
(get_file_hash_short file_path m fs).2 = inr short_m →
∃ rest, short_m = short_n +:+ rest.
Proof.
intros Hnm. rewrite !get_file_hash_short_unfold.
destruct (get_file_hash file_path "md5" fs) as [fs' [e|digest]];
  cbn [snd]; [done|].
intros [= <-] [= <-]. unfold slice_to.
rewrite !(proj2 (Z.leb_le 0 _)) by lia.
exists (str_drop (Z.to_nat n) (str_take (Z.to_nat m) digest)).
rewrite <- (str_take_take (Z.to_nat n) (Z.to_nat m)) by lia.
by rewrite str_take_drop.
Qed.
End UtilsProperties.

(** X18: with MD5 for [hashlib], the short hash of a file that can be
    read, for a length from 0 to 32, has exactly that many characters,
    each a digit or one of the letters [a] to [f]. *)
Theorem get_file_hash_short_md5 file_path length fs data :
  read_bytes file_path fs = inr data →
  (0 ≤ length ≤ 32)%Z →
  ∃ short,
    get_file_hash_short (H := MD5.hashlib) file_path length fs
    = (fs, inr short)
    ∧ String.length short = Z.to_nat length
    ∧ ∀ c, c ∈ chars short → c ∈ chars "0123456789abcdef".
Proof.
  intros Hd Hlen. rewrite get_file_hash_short_unfold, get_file_hash_unfold.
  change (hash_new "md5") with (inr EmptyString : result string).
  cbv iota. rewrite Hd.
  set (digest := hash_hexdigest _).
  exists (slice_to digest length). split; [done|].
  assert (String.length digest = 32) as Hl32 by apply hexdigest_length.
  split.
  - rewrite slice_to_length, (proj2 (Z.leb_le 0 _)) by lia. lia.
  - intros c Hc. destruct (slice_to_prefix digest length) as [rest Hrest].
    assert (c ∈ chars digest) as Hin.
    { rewrite Hrest, chars_app. apply elem_of_app. by left. }
    revert Hin. apply hexdigest_chars.
Qed.

(** ** The builder and the utilities together *)

Section Together.
Context `{J : Jinja2} `{L : Locale} `{H : HashLib}.

(** X19: with directory names that are relative, have no component
  [..], and begin with different components, as the default names
  [src/static] and [build] do, the static source and the directory the
  assets are copied to lie outside each other, whatever the base path;
  the builder keeps its directories below the base path. *)
Theorem init_static_outside_build cwd td sd bd base a ra b rb :
is_absolute sd = false → is_absolute bd = false →
dotdot_free (segments sd) = true → dotdot_free (segments bd) = true →
segments sd = a :: ra → segments bd = b :: rb → a ≠ b →
unrelated (static_dir (init cwd td sd bd base))
  (static_dest (init cwd td sd bd base))
∧ default cwd base `prefix_of` static_dir (init cwd td sd bd base)
∧ default cwd base `prefix_of` build_dir (init cwd td sd bd base).
Proof.
intros Hsd Hbd _ _ Hsa Hsb Hne. unfold static_dest, init, joinpath. simpl.
rewrite Hsd, Hbd, Hsa, Hsb. split_and!.
- rewrite <- app_assoc. simpl. by apply unrelated_siblings.
- by apply prefix_app_r.
- by apply prefix_app_r.
Qed.


(** X21: a rendered page has the digest of the text returned.  After
  [render_template] has returned [html], the text could be encoded,
  reading the output path gives its bytes, and [get_file_hash] of the
  output path is the digest of those bytes. *)
Theorem render_template_then_hash `{!HashLibLaws H}
  self tpl ctx out fs fs' html algorithm h :
render_template self tpl ctx out fs = (fs', inr html) →
hash_new algorithm = inr h →
∃ bytes,
  encode html = inr bytes
  ∧ read_bytes (output_path self tpl out) fs' = inr bytes
  ∧ get_file_hash (output_path self tpl out) algorithm fs'
    = (fs', inr (hash_hexdigest (hash_update h bytes))).
Proof.
intros (T & fs1 & bytes & _ & _ & _ & He & Hw)%render_template_inv_ok Hn.
apply write_bytes_lookup in Hw.
assert (read_bytes (output_path self tpl out) fs' = inr bytes) as Hr
  by (unfold read_bytes; by rewrite Hw).
exists bytes. split; [done|]. split; [done|]. by apply get_file_hash_whole.
Qed.
End Together.

(** ** The further properties at the project of the test suite *)

Lemma clean_removes_build_dir_witness :
  ∃ fs',
    clean Fixture.builder Fixture.stale_project = (fs', inr tt)
    ∧ lookup_path (build_dir Fixture.builder ++ ["static"; "css"; "old.css"])
        fs' = None.
Proof.
  destruct (clean_removes_build_dir Fixture.builder Fixture.stale_project)
    as (fs' & Hc & Hgone & _); [vm_compute; congruence|vm_compute; reflexivity|].
  exists fs'. split; [exact Hc|apply Hgone].
Defined.


Lemma ensure_build_dirs_ok_iff_witness :
  (ensure_build_dirs Fixture.builder (Some ["static/css"])
     Fixture.file_for_static).2 = inr tt
  ↔ ∀ p, p ∈ build_dirs Fixture.builder (Some ["static/css"]) →
         blocked p Fixture.file_for_static = false.
Proof.
  refine (proj1 (ensure_build_dirs_ok_iff Fixture.builder
                   (Some ["static/css"]) Fixture.file_for_static
                   (ensure_build_dirs Fixture.builder (Some ["static/css"])
                      Fixture.file_for_static).1 _ _ _)).
  - apply Forall_forall. repeat constructor.
  - vm_compute. reflexivity.
Defined.

Lemma ensure_build_dirs_only_makes_dirs_witness :
  stat (Fixture.base ++ ["build"; "static"])
    (ensure_build_dirs Fixture.builder (Some ["static/css"])
       Fixture.temp_project).1
  = stat (Fixture.base ++ ["build"; "static"]) Fixture.temp_project
  ∨ (stat (Fixture.base ++ ["build"; "static"]) Fixture.temp_project = None
     ∧ stat (Fixture.base ++ ["build"; "static"])
         (ensure_build_dirs Fixture.builder (Some ["static/css"])
            Fixture.temp_project).1
       = Some KDir
     ∧ ∃ p, p ∈ build_dirs Fixture.builder (Some ["static/css"])
            ∧ (Fixture.base ++ ["build"; "static"]) `prefix_of` p).
Proof.
  apply (ensure_build_dirs_only_makes_dirs Fixture.builder
           (Some ["static/css"]) Fixture.temp_project _
           (ensure_build_dirs Fixture.builder (Some ["static/css"])
              Fixture.temp_project).2).
  - apply Forall_forall. repeat constructor.
  - vm_compute. reflexivity.
Defined.





Lemma render_template_raises_witness :
  stat (output_path Fixture.builder "about.html" (Some "page.html"))
    (render_template (L := UTF8.locale) Fixture.builder "about.html"
       (Some Fixture.surrogate_context) (Some "page.html")
       Fixture.temp_project).1
  = stat (output_path Fixture.builder "about.html" (Some "page.html"))
      Fixture.temp_project
  ∨ (stat (output_path Fixture.builder "about.html" (Some "page.html"))
       (render_template (L := UTF8.locale) Fixture.builder "about.html"
          (Some Fixture.surrogate_context) (Some "page.html")
          Fixture.temp_project).1
     = Some (KFile EmptyString)
     ∧ ∃ T html,
         get_template (env Fixture.builder) "about.html" Fixture.temp_project
         = inr T
         ∧ render T (default ∅ (Some Fixture.surrogate_context)) = inr html
         ∧ encode (Locale := UTF8.locale) html = inl UnicodeEncodeError).
Proof.
  refine (proj1 (proj2 (render_template_raises (L := UTF8.locale)
                          Fixture.builder "about.html"
                          (Some Fixture.surrogate_context) (Some "page.html")
                          Fixture.temp_project _ UnicodeEncodeError _ _)));
    vm_compute; reflexivity.
Defined.

Lemma render_pages_all_written_witness :
  is_file (Fixture.base ++ ["build"; "about"; "index.html"])
    (render_pages (L := UTF8.locale) Fixture.builder
       [PageName "index.html"; PagePair "about.html" "about/index.html"]
       (Some Fixture.context) Fixture.temp_project).1
  = true.
Proof.
  refine (proj1 (render_pages_all_written (L := UTF8.locale) Fixture.builder
                   [PageName "index.html";
                    PagePair "about.html" "about/index.html"]
                   (Some Fixture.context) Fixture.temp_project _ _)
            (PagePair "about.html" "about/index.html") _).
  - vm_compute. reflexivity.
  - apply elem_of_cons. right. apply elem_of_cons. by left.
Defined.

Lemma get_file_hash_chunking_witness :
  get_file_hash (H := MD5.hashlib)
    (static_dir Fixture.builder ++ ["style.css"]) "md5" Fixture.temp_project
  = (Fixture.temp_project, inr "945f4436f47f5eb1866b9b78d347210c").
Proof.
  rewrite (get_file_hash_chunking (H := MD5.hashlib)
             (static_dir Fixture.builder ++ ["style.css"]) "md5"
             Fixture.temp_project EmptyString "body { color: black; }");
    vm_compute; reflexivity.
Defined.

Lemma get_file_hash_short_prefix_witness :
  ∃ rest, "945f4436f47f" = "945f4436" +:+ rest.
Proof.
  apply (get_file_hash_short_prefix (H := MD5.hashlib)
           (static_dir Fixture.builder ++ ["style.css"]) 8 12
           Fixture.temp_project);
    [lia|vm_compute; reflexivity..].
Defined.

Lemma get_file_hash_short_md5_witness :
  ∃ short,
    get_file_hash_short (H := MD5.hashlib)
      (static_dir Fixture.builder ++ ["style.css"]) 8 Fixture.temp_project
    = (Fixture.temp_project, inr short)
    ∧ String.length short = Z.to_nat 8
    ∧ ∀ c, c ∈ chars short → c ∈ chars "0123456789abcdef".
Proof.
  apply (get_file_hash_short_md5 _ 8 _ "body { color: black; }");
    [vm_compute; reflexivity|lia].
Defined.

Lemma init_static_outside_build_witness :
  unrelated (static_dir Fixture.builder) (static_dest Fixture.builder).
Proof.
  refine (proj1 (init_static_outside_build (J := MiniJinja.engine) []
                   "src/templates" "src/static" "build" (Some Fixture.base)
                   "src" ["static"] "build" [] _ _ _ _ _ _ _));
    [vm_compute; reflexivity..|done].
Defined.


Lemma render_template_then_hash_witness :
  ∃ bytes,
    encode (Locale := UTF8.locale) (text_of_string "<h1>Hello World</h1>")
    = inr bytes
    ∧ read_bytes (output_path Fixture.builder "index.html" None)
        (render_template (L := UTF8.locale) Fixture.builder "index.html"
           (Some Fixture.context) None Fixture.temp_project).1
      = inr bytes.
Proof.
  destruct (render_template_then_hash (L := UTF8.locale) (H := MD5.hashlib)
              Fixture.builder "index.html" (Some Fixture.context) None
              Fixture.temp_project
              (render_template (L := UTF8.locale) Fixture.builder "index.html"
                 (Some Fixture.context) None Fixture.temp_project).1
              (text_of_string "<h1>Hello World</h1>") "md5" EmptyString)
    as (bytes & He & Hr & _); [vm_compute; reflexivity..|].
  exists bytes. split; [exact He|exact Hr].
Defined.

Lemma to_dict_subclass_witness :
  Config.to_dict
    {| inst_dict := ∅;
       mro := [Fixture.TestConfig_namespace; Fixture.Config_namespace;
               Fixture.object_namespace] |}
    !! "SITE_NAME" = Some (PyStr "Test").
Proof.
  apply (proj1 (proj2 (to_dict_subclass ∅ Fixture.TestConfig_namespace
                         [Fixture.Config_namespace; Fixture.object_namespace]
                         "SITE_NAME")) (PyStr "Test"));
    vm_compute; reflexivity.
Defined.

Lemma get_file_hash_errors_witness :
  (get_file_hash (H := MD5.hashlib)
     (static_dir Fixture.builder ++ ["style.css"; "x"]) "md5"
     Fixture.temp_project).2 = inl NotADirectoryError
  ∧ (get_file_hash (H := MD5.hashlib)
       (static_dir Fixture.builder ++ ["missing.css"]) "md5"
       Fixture.temp_project).2 = inl FileNotFoundError.
Proof.
  split.
  - apply (proj1 (proj2 (proj2 (get_file_hash_errors (H := MD5.hashlib)
                                  (static_dir Fixture.builder
                                     ++ ["style.css"; "x"])
                                  "md5" Fixture.temp_project))
                   EmptyString eq_refl)
             (static_dir Fixture.builder ++ ["style.css"])).
    + exists ["x"]. vm_compute. reflexivity.
    + vm_compute. discriminate.
    + vm_compute. reflexivity.
  - apply (proj1 (proj2 (proj2 (proj2 (get_file_hash_errors (H := MD5.hashlib)
                                         (static_dir Fixture.builder
                                            ++ ["missing.css"])
                                         "md5" Fixture.temp_project))
                          EmptyString eq_refl)));
      vm_compute; reflexivity.
Defined.
